(** * Clade selection, movement traces and grid binning of btbwgstool

    A shallow embedding of the data transforms of [btbwgstool/gui.py] and of
    its predecessor [btbgenietool/gui.py]: the clade index
    ([update_clades], [get_cluster_samples]), the selection handlers
    ([plot_selected_clade], [plot_in_region]), the movement resolver
    ([get_moves_bytag], [plot_moves], [get_coords_data]), the point plot
    ([plot_single_cluster]) and the grid binning ([plot_hexbin]).

    A pandas frame is a list of rows in row order.  The pandas operations
    the source calls are written out once, in [Module pd], with the
    behaviour the library documents; everything else follows the source
    line by line.  Coordinates of the projected reference system and the
    offsets drawn by the jitter are exact integers. *)

From Stdlib Require Import String Ascii ZArith QArith Bool Arith Lia.
From Stdlib Require Import DecimalString.
From Stdlib Require Import List Permutation Sorted.
Import ListNotations.
Local Open Scope string_scope.
Local Open Scope list_scope.
Local Open Scope nat_scope.

(** ** Exceptions and the state-and-exception monad

    A Python call either returns or raises; what it wrote into the object
    it works on stays written in both cases. *)

Inductive exn : Type :=
| IndexError
| TypeError
| ValueError.

Inductive result (A : Type) : Type :=
| Ok (a : A)
| Raise (e : exn).
Arguments Ok {A} a.
Arguments Raise {A} e.

Definition M (S A : Type) : Type := S -> S * result A.

Definition ret {S A} (a : A) : M S A := fun s => (s, Ok a).

Definition raise {S A} (e : exn) : M S A := fun s => (s, Raise e).

Definition bind {S A B} (m : M S A) (k : A -> M S B) : M S B :=
  fun s =>
    match m s with
    | (s', Ok a) => k a s'
    | (s', Raise e) => (s', Raise e)
    end.

Definition get {S} : M S S := fun s => (s, Ok s).

Definition modify {S} (f : S -> S) : M S unit := fun s => (f s, Ok tt).

Definition lift {S A} (r : result A) : M S A := fun s => (s, r).

Declare Scope py_scope.
Delimit Scope py_scope with py.
Notation "x <- m ;; k" := (bind m (fun x => k))
  (at level 61, m at next level, right associativity) : py_scope.
Notation "m ;; k" := (bind m (fun _ => k))
  (at level 61, right associativity) : py_scope.

(** ** The pandas operations used by the source *)

Module pd.

(** Insertion sort by a total preorder [leb], the model of [sort_values]
    and of the sort inside [value_counts] and [groupby]: an element is
    placed in front of the first one it is not above, so rows with equal
    keys keep their order.  pandas keeps that order only where its sort is
    stable; the general properties below do not depend on the order of
    rows with equal keys. *)
Section Sort.
Context {A : Type} (leb : A -> A -> bool).

Fixpoint insert_by (a : A) (l : list A) : list A :=
  match l with
  | [] => [a]
  | b :: t => if leb a b then a :: b :: t else b :: insert_by a t
  end.

Definition sort_by (l : list A) : list A := fold_right insert_by [] l.

End Sort.

(** Keys with an equality test and an order: column values. *)
Section Keys.
Context {K : Type} (eqb leb : K -> K -> bool).

(** [Series.unique()]: the distinct values, in order of first appearance. *)
Fixpoint unique_by (l : list K) : list K :=
  match l with
  | [] => []
  | x :: t => x :: filter (fun y => negb (eqb y x)) (unique_by t)
  end.

(** The rows of the group of key [k]. *)
Definition has_key {R : Type} (key : R -> option K) (k : K) (r : R) : bool :=
  match key r with Some k' => eqb k' k | None => false end.

(** [DataFrame.groupby(key)]: one group per distinct key that is not
    missing, the groups by increasing key ([sort=True]), the rows of a
    group in their original order. *)
Definition groupby {R : Type} (key : R -> option K) (rows : list R)
  : list (K * list R) :=
  let keys :=
    flat_map (fun r => match key r with Some k => [k] | None => [] end) rows in
  map (fun k => (k, filter (has_key key k) rows))
      (sort_by leb (unique_by keys)).

End Keys.

Definition unique : list string -> list string := unique_by String.eqb.

(** Number of rows of a column that hold [v]. *)
Definition count (v : string) (l : list string) : nat :=
  length (filter (fun y => (y =? v)%string) l).

(** [Series.value_counts()]: one entry per distinct value with the number
    of its occurrences, by decreasing count.  The hash table behind it
    lists the values in order of first appearance; the order pandas
    leaves among equal counts depends on its sort, which is not stable on
    long columns.  The model keeps equal counts in order of first
    appearance, as pandas does on the short columns of the examples. *)
Definition value_counts (l : list string) : list (string * nat) :=
  sort_by (fun p q => snd q <=? snd p)
          (map (fun v => (v, count v l)) (unique l)).

(** [Series.isin(values)]. *)
Definition isin (v : string) (values : list string) : bool :=
  existsb (fun y => (y =? v)%string) values.

(** [Series.shift(-1)]: every row takes the value of the row below it and
    the last row becomes missing. *)
Definition shift_up {A} (l : list (option A)) : list (option A) :=
  match l with
  | [] => []
  | _ :: t => t ++ [None]
  end.

(** Order on an optional key with missing values last
    ([na_position='last']). *)
Definition opt_leb {A} (leb : A -> A -> bool) (a b : option A) : bool :=
  match a, b with
  | Some x, Some y => leb x y
  | Some _, None => true
  | None, Some _ => false
  | None, None => true
  end.

Definition opt_eqb {A} (eqb : A -> A -> bool) (a b : option A) : bool :=
  match a, b with
  | Some x, Some y => eqb x y
  | None, None => true
  | _, _ => false
  end.

End pd.

(** ** Data model *)

(** A point of the projected coordinate system. *)
Definition Point : Type := (Z * Z)%type.

Definition Color : Type := string.

(** A row of the sample table [cent]: its columns by name, and its point
    geometry, [None] for the empty point [Point()].  Every row has a
    geometry: a frame with missing geometries is not represented. *)
Module Sample.
Record t : Type := mk { field : string -> string; geometry : option Point }.

Definition is_empty (s : t) : bool :=
  match geometry s with None => true | Some _ => false end.

(** [df[c]], a column as a list of values in row order. *)
Definition col (c : string) (df : list t) : list string :=
  map (fun s => field s c) df.
End Sample.

(** A row of the movement table [moves]. *)
Module Move.
Record t : Type := mk {
  tag : string;
  move_to : string;
  move_date : Z;
  data_type : string;
  breed : string;
  dob : string
}.
End Move.

(** A row of the parcel centroids [lpis_cent]: the herd number and the
    centroid, [None] when the row has no geometry.  The table has no
    column [Animal_ID]. *)
Module Parcel.
Record t : Type := mk { SPH_HERD_N : string; geometry : option Point }.
End Parcel.

(** A row of the frame [get_moves_bytag] builds.  Every cell can be
    missing: a left merge and a concatenation fill the columns a row does
    not have with NaN. *)
Module Trace.
Record t : Type := mk {
  Animal_ID : option string;
  HERD_NO : option string;
  move_to : option string;
  move_date : option Z;
  data_type : option string;
  breed : option string;
  dob : option string;
  SPH_HERD_N : option string;
  geometry : option Point
}.

(** The frame handed to [get_coords_data]: its rows, and the column [P2]
    once it has been written. *)
Record frame : Type := mkframe {
  rows : list t;
  P2 : option (list (option Point))
}.

Definition of_rows (l : list t) : frame := {| rows := l; P2 := None |}.
End Trace.

(** [shapely.geometry.LineString] of two points. *)
Inductive LineString : Type :=
| Line (a b : Point).

(** [LineString([a, b])]: a missing end point is refused. *)
Definition mkLineString (a b : option Point) : result LineString :=
  match a, b with
  | Some p, Some q => Ok (Line p q)
  | _, _ => Raise TypeError
  end.

(** What has been drawn on the axes, in drawing order.  Sizes, widths and
    transparency are left out. *)
Inductive Artist : Type :=
| Counties
| Parcels (herds : list string)
| Scatter (pts : list (Sample.t * option Color)) (marker : string)
| ScatterBy (column : option string) (cmap : string) (pts : list Sample.t)
| Lines (color : Color) (segs : list LineString)
| Squares (edge : Color) (at_ : list Parcel.t)
| Cells (cs : list (nat * string * Color))
| Legend (m : list (string * Color))
| Labels (column : string) (pts : list Sample.t)
| SetTitle (s : string)
| SupTitle (s : string)
| AxisOff
| XLim (lo hi : Q)
| YLim (lo hi : Q)
| ScaleBar.

Definition Axes : Type := list Artist.

Definition draw (a : Artist) : M Axes unit := modify (fun ax => ax ++ [a]).

(** The module [plotting] of the package and the point-in-polygon
    predicate of shapely are not part of the sources at hand: the
    functions below take them as an interface. *)
Class Plotting : Type := {
  Cell : Type;
  within : Point -> Cell -> bool;
  create_hex_grid : list Sample.t -> nat -> list Cell;
  create_grid : list Sample.t -> nat -> list Cell;
  get_color_mapping :
    list Sample.t -> string -> string -> list Color * list (string * Color);
  random_colors : nat -> Z -> list Color
}.

(** ** Module-level functions of [btbwgstool/gui.py] *)

Definition Species (s : Sample.t) : string := Sample.field s "Species".

(** [get_cluster_samples(cent, col, n)], and its local [clusts]: the index
    of the value counts that reach [n]. *)
Definition clusts (cent : list Sample.t) (col : string) (n : nat)
  : list string :=
  let v := pd.value_counts (Sample.col col cent) in
  let v := filter (fun p => n <=? snd p) v in
  map fst v.

Definition get_cluster_samples (cent : list Sample.t) (col : string)
  (n : nat) : list Sample.t :=
  let g := filter (fun s => negb (Sample.field s col =? "-1")%string) cent in
  let g := filter (fun s => pd.isin (Sample.field s col) (clusts cent col n))
                  g in
  pd.sort_by (fun a b => String.leb (Sample.field a col) (Sample.field b col))
             g.

(** [GeoDataFrame.total_bounds]: (minx, miny, maxx, maxy) over the points
    of the frame, empty geometries skipped; [None] stands for the array of
    NaN of a frame without any point. *)
Definition points_of (df : list Sample.t) : list Point :=
  flat_map (fun s => match Sample.geometry s with
                     | Some p => [p]
                     | None => []
                     end) df.

Definition total_bounds (df : list Sample.t) : option (Z * Z * Z * Z) :=
  match points_of df with
  | [] => None
  | (x, y) :: ps =>
      Some (fold_right Z.min x (map fst ps), fold_right Z.min y (map snd ps),
            fold_right Z.max x (map fst ps), fold_right Z.max y (map snd ps))
  end.

(** [df.Species.map({'Bovine':'blue','Badger':'orange'})]. *)
Definition species_color (s : Sample.t) : option Color :=
  if (Species s =? "Bovine")%string then Some "blue"
  else if (Species s =? "Badger")%string then Some "orange"
  else None.

(** [plot_single_cluster(df, col, cmap, margin, ms, legend, title, ax)].
    The name [df] is rebound to filtered copies; the frame of the caller
    is only read.  The drawing calls are recorded in the order in which
    they are made; what matplotlib refuses to draw, such as a colormap it
    does not know, is not represented. *)
Definition plot_single_cluster (df : list Sample.t) (col : option string)
  (cmap : string) (margin : option Q) (title : string) : M Axes unit :=
  (let df := filter (fun s => negb (Sample.is_empty s)) df in
   if length df =? 0 then
     modify (fun _ : Axes => []) ;;
     draw (SetTitle "no locations available")
   else
     let bounds := total_bounds df in
     let df := filter (fun s => pd.isin (Species s) ["Bovine"; "Badger"]) df in
     (if match col with None => true | Some c => (c =? "")%string end then
        draw (Scatter (map (fun s => (s, species_color s)) df) "o")
      else
        let cow := filter (fun s => (Species s =? "Bovine")%string) df in
        let badger := filter (fun s => (Species s =? "Badger")%string) df in
        draw (ScatterBy col cmap cow) ;;
        draw (Scatter (map (fun s => (s, Some "orange")) badger) "s")) ;;
     draw (SetTitle title) ;;
     draw AxisOff ;;
     match bounds with
     | None => raise ValueError
     | Some (minx, miny, maxx, maxy) =>
         let margin := match margin with
                       | None => (inject_Z (maxx - minx) * (3 # 10))%Q
                       | Some m => m
                       end in
         draw (XLim (inject_Z minx - margin) (inject_Z maxx + margin))%Q ;;
         draw (YLim (inject_Z miny - margin) (inject_Z maxy + margin))%Q ;;
         draw ScaleBar
     end)%py.

(** [df.apply(f, 1)]: [f] row by row; the first row that raises ends it. *)
Fixpoint apply_rows {A B} (f : A -> result B) (l : list A)
  : result (list B) :=
  match l with
  | [] => Ok []
  | a :: t =>
      match f a with
      | Raise e => Raise e
      | Ok b => match apply_rows f t with
                | Raise e => Raise e
                | Ok bs => Ok (b :: bs)
                end
      end
  end.

(** [get_coords_data(df)]: writes the column [P2] into [df], then joins
    every row but the last to its successor. *)
Definition get_coords_data : M Trace.frame (list LineString) :=
  fun df =>
    let geometry := map Trace.geometry (Trace.rows df) in
    let P2 := pd.shift_up geometry in
    let df := {| Trace.rows := Trace.rows df; Trace.P2 := Some P2 |} in
    (df, apply_rows (fun x => mkLineString (fst x) (snd x))
                    (removelast (combine geometry P2))).

(** [jitter_points(r, scale)]; [a] and [b] are the two draws of
    [np.random.normal(0, scale)], made before the geometry is looked at. *)
Definition jitter_points (ab : Z * Z) (r : Sample.t) : option Point :=
  match Sample.geometry r with
  | None => None
  | Some (x, y) => Some (x + fst ab, y + snd ab)%Z
  end.

(** ** The application object of [btbwgstool/gui.py] *)

(** What the handlers read from the widgets. *)
Record Widgets : Type := mkWidgets {
  cladelevelw : string;
  cladew_selected : list string;
  countyw : string;
  colorbyw : string;
  cmapw : string;
  labelsw : string;
  jitterb : bool;
  movesb : bool;
  parcelsb : bool;
  plot_lims : Z * Z * Z * Z
}.

(** The attributes of [App] the transforms read and write.  [lpis] and
    [parcels] keep the herd number of each parcel polygon; [cladew] is the
    content of the clade tree widget; [ax] is [plotview.ax]. *)
Record App : Type := mkApp {
  cent : list Sample.t;
  sub : list Sample.t;
  moves : list Move.t;
  lpis : option (list string);
  lpis_cent : list Parcel.t;
  parcels : option (list string);
  title : option string;
  lims : option (Z * Z * Z * Z);
  ax : Axes;
  cladew : list (string * nat)
}.

Definition set_sub (v : list Sample.t) (a : App) : App :=
  mkApp (cent a) v (moves a) (lpis a) (lpis_cent a) (parcels a) (title a)
        (lims a) (ax a) (cladew a).

Definition set_parcels (v : option (list string)) (a : App) : App :=
  mkApp (cent a) (sub a) (moves a) (lpis a) (lpis_cent a) v (title a)
        (lims a) (ax a) (cladew a).

Definition set_title (v : option string) (a : App) : App :=
  mkApp (cent a) (sub a) (moves a) (lpis a) (lpis_cent a) (parcels a) v
        (lims a) (ax a) (cladew a).

Definition set_lims (v : option (Z * Z * Z * Z)) (a : App) : App :=
  mkApp (cent a) (sub a) (moves a) (lpis a) (lpis_cent a) (parcels a)
        (title a) v (ax a) (cladew a).

Definition set_ax (v : Axes) (a : App) : App :=
  mkApp (cent a) (sub a) (moves a) (lpis a) (lpis_cent a) (parcels a)
        (title a) (lims a) v (cladew a).

Definition set_cladew (v : list (string * nat)) (a : App) : App :=
  mkApp (cent a) (sub a) (moves a) (lpis a) (lpis_cent a) (parcels a)
        (title a) (lims a) (ax a) v.

(** A drawing function run on the axes of the application. *)
Definition on_ax {A} (m : M Axes A) : M App A :=
  fun self => let (ax', r) := m (ax self) in (set_ax ax' self, r).

(** [App.update_clades]: the tree widget is cleared and gets one item per
    clade of the current level that has more than one sample, with its
    size. *)
Definition update_clades (w : Widgets) : M App unit :=
  (self <- get ;;
   let level := cladelevelw w in
   let clades := pd.value_counts (Sample.col level (cent self)) in
   let clades := filter (fun p => 1 <? snd p) clades in
   modify (set_cladew clades))%py.

(** [App.get_parcels] and [App.plot_parcels]. *)
Definition get_parcels (self : App) : option (list string) :=
  match lpis self with
  | None => None
  | Some l =>
      let herds := Sample.col "HERD_NO" (sub self) in
      Some (filter (fun h => pd.isin h herds) l)
  end.

Definition plot_parcels : M App unit :=
  (self <- get ;;
   match parcels self with
   | None => ret tt
   | Some p => on_ax (draw (Parcels p))
   end)%py.

(** [App.get_moves_bytag(df, move_df)]: the moves of the samples of [df]
    with the centroid of the herd moved to; [None] when there is none. *)
Definition get_moves_bytag (self : App) (df : list Sample.t)
  (move_df : list Move.t) : option (list Trace.t) :=
  let lpis_cent := lpis_cent self in
  let t :=
    flat_map (fun s =>
      map (fun mv =>
             Trace.mk (Some (Sample.field s "Animal_ID"))
                      (Some (Sample.field s "HERD_NO"))
                      (Some (Move.move_to mv)) (Some (Move.move_date mv))
                      (Some (Move.data_type mv)) (Some (Move.breed mv))
                      (Some (Move.dob mv)) None None)
          (filter (fun mv => (Move.tag mv =? Sample.field s "Animal_ID")%string)
                  move_df)) df in
  let with_parcel (r : Trace.t) herd g :=
    Trace.mk (Trace.Animal_ID r) (Trace.HERD_NO r) (Trace.move_to r)
             (Trace.move_date r) (Trace.data_type r) (Trace.breed r)
             (Trace.dob r) herd g in
  let m :=
    flat_map (fun r =>
      match filter (fun p => pd.opt_eqb String.eqb (Some (Parcel.SPH_HERD_N p))
                                        (Trace.move_to r)) lpis_cent with
      | [] => [with_parcel r None None]
      | ps => map (fun p => with_parcel r (Some (Parcel.SPH_HERD_N p))
                                        (Parcel.geometry p)) ps
      end) t in
  if length m =? 0 then None
  else
    let x := filter (fun p => pd.isin (Parcel.SPH_HERD_N p)
                                      (Sample.col "HERD_NO" df)) lpis_cent in
    let x := map (fun p => Trace.mk None None None None None None None
                                    (Some (Parcel.SPH_HERD_N p))
                                    (Parcel.geometry p)) x in
    let m := m ++ x in
    let m := filter (fun r => match Trace.Animal_ID r with
                              | Some _ => true
                              | None => false
                              end) m in
    let m := pd.sort_by
               (fun a b =>
                  if pd.opt_eqb String.eqb (Trace.Animal_ID a) (Trace.Animal_ID b)
                  then pd.opt_leb Z.leb (Trace.move_date a) (Trace.move_date b)
                  else pd.opt_leb String.leb (Trace.Animal_ID a)
                                  (Trace.Animal_ID b)) m in
    Some m.

(** [colors[i]]. *)
Definition index {S A} (l : list A) (i : nat) : M S A :=
  match nth_error l i with
  | Some a => ret a
  | None => raise IndexError
  end.

(** [App.plot_moves(moves, ax)]: one line layer and one layer of square
    markers per animal whose trace has a segment, each animal in the next
    colour of a palette of 30. *)
Section Methods.
Context {P : Plotting}.

Fixpoint plot_moves_loop (lpis_cent : list Parcel.t) (colors : list Color)
  (groups : list (string * list Trace.t)) (i : nat) : M Axes unit :=
  match groups with
  | [] => ret tt
  | (tag, t) :: groups =>
      (let moved :=
         filter (fun p =>
                   existsb (fun r => pd.opt_eqb String.eqb (Trace.move_to r)
                                       (Some (Parcel.SPH_HERD_N p))) t)
                lpis_cent in
       coords <- lift (snd (get_coords_data (Trace.of_rows t))) ;;
       if 0 <? length coords then
         c <- index colors i ;;
         draw (Lines c coords) ;;
         draw (Squares c moved) ;;
         plot_moves_loop lpis_cent colors groups (i + 1)
       else
         plot_moves_loop lpis_cent colors groups i)%py
  end.

Definition plot_moves (self : App) (moves : option (list Trace.t))
  : M Axes unit :=
  let lpis_cent := lpis_cent self in
  let colors := random_colors 30 12 in
  let i := 0 in
  match moves with
  | None => ret tt
  | Some moves =>
      let moves := filter (fun r => match Trace.geometry r with
                                    | Some _ => true
                                    | None => false
                                    end) moves in
      plot_moves_loop lpis_cent colors
        (pd.groupby String.eqb String.leb Trace.Animal_ID moves) i
  end.

(** [App.show_labels(col)]. *)
Definition show_labels (col : string) : M App unit :=
  (if (col =? "")%string then ret tt
   else self <- get ;; on_ax (draw (Labels col (sub self))))%py.

(** The subset with its geometry column overwritten by
    [self.sub.apply(lambda x: jitter_points(x,50),1)]; [noise k] is the
    pair of draws made for row [k]. *)
Definition jittered (noise : nat -> Z * Z) (sub : list Sample.t)
  : list Sample.t :=
  map (fun kr => Sample.mk (Sample.field (snd kr))
                           (jitter_points (noise (fst kr)) (snd kr)))
      (combine (seq 0 (length sub)) sub).

(** [App.update]: redraws the map from the active subset.  The context
    map, the scale of the figure and the two Qt tables are left to the
    presentation layer.  On a subset without rows [apply] gives back a
    frame, not a column, and the assignment of the jittered geometry
    raises ValueError. *)
Definition update (noise : nat -> Z * Z) (w : Widgets) : M App unit :=
  (modify (set_ax []) ;;
   let colorcol := colorbyw w in
   let cmap := cmapw w in
   let jitter := jitterb w in
   on_ax (draw Counties) ;;
   (if parcelsb w then
      self <- get ;;
      modify (set_parcels (get_parcels self)) ;;
      plot_parcels
    else ret tt) ;;
   (if jitter then
      self <- get ;;
      match sub self with
      | [] => raise ValueError
      | _ :: _ => modify (set_sub (jittered noise (sub self)))
      end
    else ret tt) ;;
   self <- get ;;
   on_ax (plot_single_cluster (sub self) (Some colorcol) cmap None "") ;;
   show_labels (labelsw w) ;;
   on_ax (draw ScaleBar) ;;
   on_ax (draw AxisOff) ;;
   (if movesb w then
      self <- get ;;
      let mov := get_moves_bytag self (sub self) (moves self) in
      on_ax (plot_moves self mov)
    else ret tt) ;;
   self <- get ;;
   match title self with
   | Some t => on_ax (draw (SupTitle t))
   | None => ret tt
   end ;;
   match lims self with
   | Some (x0, x1, y0, y1) =>
       on_ax (draw (XLim (inject_Z x0) (inject_Z x1))) ;;
       on_ax (draw (YLim (inject_Z y0) (inject_Z y1)))
   | None => ret tt
   end)%py.

(** [str(n)] of a length. *)
Definition str (n : nat) : string := NilEmpty.string_of_uint (Nat.to_uint n).

(** [App.plot_selected_clade]. *)
Definition plot_selected_clade (noise : nat -> Z * Z) (w : Widgets)
  : M App unit :=
  (self <- get ;;
   let cent := cent self in
   let level := cladelevelw w in
   let clades := cladew_selected w in
   if length clades =? 0 then ret tt
   else
     let sub := filter (fun s => pd.isin (Sample.field s level) clades) cent in
     modify (set_sub sub) ;;
     let cl := String.concat "," clades in
     modify (set_title
               (Some (level ++ "=" ++ cl ++ " n=" ++ str (length sub))%string)) ;;
     modify (set_lims None) ;;
     update noise w)%py.

(** [App.plot_county]. *)
Definition plot_county (noise : nat -> Z * Z) (w : Widgets) : M App unit :=
  (self <- get ;;
   let county := countyw w in
   modify (set_sub (filter (fun s => (Sample.field s "County" =? county)%string)
                           (cent self))) ;;
   modify (set_lims None) ;;
   modify (set_title (Some county)) ;;
   update noise w)%py.

(** [GeoDataFrame.cx[xmin:xmax, ymin:ymax]]: the rows whose geometry
    intersects the closed rectangle [box(xmin, ymin, xmax, ymax)]; the
    empty point intersects nothing. *)
Definition cx (xmin xmax ymin ymax : Z) (df : list Sample.t)
  : list Sample.t :=
  filter (fun s =>
            match Sample.geometry s with
            | None => false
            | Some (x, y) =>
                (Z.min xmin xmax <=? x)%Z && (x <=? Z.max xmin xmax)%Z &&
                (Z.min ymin ymax <=? y)%Z && (y <=? Z.max ymin ymax)%Z
            end) df.

(** [App.plot_in_region]. *)
Definition plot_in_region (noise : nat -> Z * Z) (w : Widgets) : M App unit :=
  (let '(xmin, xmax, ymin, ymax) := plot_lims w in
   self <- get ;;
   let df := cent self in
   modify (set_sub (cx xmin xmax ymin ymax df)) ;;
   update noise w)%py.

End Methods.

(** [App.add_recent_file(fname)], on the attribute [recent_files];
    [abspath] is [os.path.abspath].  The file goes to the front unless it
    is listed already, and the oldest entry is dropped once there are more
    than five. *)
Definition add_recent_file (abspath : string -> string)
  (recent_files : list string) (fname : string) : list string :=
  let fname := abspath fname in
  if negb (fname =? "")%string &&
     negb (existsb (fun f => (f =? fname)%string) recent_files)
  then
    let recent_files := fname :: recent_files in
    if 5 <? length recent_files then removelast recent_files
    else recent_files
  else recent_files.

(** ** [btbgenietool/gui.py] *)

Module Genie.
Section WithPlotting.
Context {P : Plotting}.

(** The points [plot_hexbin] keeps: no sample of the clade ["-1"], and
    only samples of the ten most common clades. *)
Definition retained (gdf : list Sample.t) (col : string) : list Sample.t :=
  let gdf := filter (fun s => negb (Sample.field s col =? "-1")%string) gdf in
  let common := firstn 10 (map fst (pd.value_counts (Sample.col col gdf))) in
  filter (fun s => pd.isin (Sample.field s col) common) gdf.

(** [gpd.sjoin(gdf, grid, how='left', predicate='within')]: every point
    with the index of each cell it lies within, in the order of the
    points; a point within no cell keeps a missing [index_right]. *)
Definition sjoin (gdf : list Sample.t) (grid : list Cell)
  : list (Sample.t * option nat) :=
  flat_map (fun s =>
    match Sample.geometry s with
    | None => [(s, None)]
    | Some p =>
        match filter (fun jc => within p (snd jc))
                     (combine (seq 0 (length grid)) grid) with
        | [] => [(s, None)]
        | js => map (fun jc => (s, Some (fst jc))) js
        end
    end) gdf.

(** [aggtop(x)]: the most common value of a group. *)
Definition aggtop (x : list string) : option string :=
  let c := pd.value_counts x in
  match c with
  | [] => None
  | (v, _) :: _ => Some v
  end.

(** [merged.dissolve(by="index_right", aggfunc=aggtop)[col]]: the cells
    that received a point, each with its most common value. *)
Definition dissolve (col : string) (merged : list (Sample.t * option nat))
  : list (nat * option string) :=
  map (fun g => (fst g,
                 aggtop (map (fun r => Sample.field (fst r) col) (snd g))))
      (pd.groupby Nat.eqb Nat.leb snd merged).

(** A dictionary as a list of items. *)
Fixpoint lookup {A} (k : string) (d : list (string * A)) : option A :=
  match d with
  | [] => None
  | (k', a) :: d => if (k' =? k)%string then Some a else lookup k d
  end.

Fixpoint lookup_cell {A} (j : nat) (d : list (nat * A)) : option A :=
  match d with
  | [] => None
  | (j', a) :: d => if j' =? j then Some a else lookup_cell j d
  end.

(** The rows of [grid] left after [grid = grid[~grid.color.isnull()]]:
    index, value and colour of every cell whose value has a colour. *)
Definition colored_cells (grid : list Cell)
  (dissolved : list (nat * option string)) (snpmap : list (string * Color))
  : list (nat * string * Color) :=
  flat_map (fun j =>
    match lookup_cell j dissolved with
    | Some (Some value) =>
        match lookup value snpmap with
        | Some color => [(j, value, color)]
        | None => []
        end
    | _ => []
    end) (seq 0 (length grid)).

(** [plot_hexbin(gdf, col, n_cells, grid_type, cmap, ax)]. *)
Definition plot_hexbin (gdf : list Sample.t) (col : string) (n_cells : nat)
  (grid_type : string) (cmap : string) : M Axes unit :=
  (let gdf := retained gdf col in
   let grid := if (grid_type =? "hex")%string
               then create_hex_grid gdf n_cells
               else create_grid gdf n_cells in
   let merged := sjoin gdf grid in
   let '(clrs, snpmap) := get_color_mapping gdf col cmap in
   let dissolved := dissolve col merged in
   draw (Cells (colored_cells grid dissolved snpmap)) ;;
   draw (Scatter (combine gdf (map Some clrs)) "o") ;;
   draw (Legend snpmap) ;;
   draw AxisOff)%py.

(** [plot_single_cluster] of this file: every point of the frame, and the
    limits from its bounds, which a frame without points does not have. *)
Definition plot_single_cluster (df : list Sample.t) (col : option string)
  (margin : Q) (title : string) (cmap : string) : M Axes unit :=
  (let bounds := total_bounds df in
   let col := match col with
              | Some c => if (c =? "")%string then None else Some c
              | None => None
              end in
   draw (ScatterBy col cmap df) ;;
   draw (SetTitle title) ;;
   draw AxisOff ;;
   match bounds with
   | None => raise ValueError
   | Some (minx, miny, maxx, maxy) =>
       draw (XLim (inject_Z minx - margin) (inject_Z maxx + margin))%Q ;;
       draw (YLim (inject_Z miny - margin) (inject_Z maxy + margin))%Q ;;
       draw ScaleBar
   end)%py.

Record App : Type := mkApp {
  cent : list Sample.t;
  sub : list Sample.t;
  lpis : option (list string);
  parcels : option (list string);
  ax : Axes
}.

Definition set_sub (v : list Sample.t) (a : App) : App :=
  mkApp (cent a) v (lpis a) (parcels a) (ax a).

Definition set_parcels (v : option (list string)) (a : App) : App :=
  mkApp (cent a) (sub a) (lpis a) v (ax a).

Definition set_ax (v : Axes) (a : App) : App :=
  mkApp (cent a) (sub a) (lpis a) (parcels a) v.

Definition on_ax {A} (m : M Axes A) : M App A :=
  fun self => let (ax', r) := m (ax self) in (set_ax ax' self, r).

(** [App.get_parcels(gdf)]: the parcels merged with the samples of their
    herd. *)
Definition get_parcels (self : App) (gdf : list Sample.t)
  : option (list string) :=
  match lpis self with
  | None => None
  | Some l =>
      Some (flat_map (fun h =>
              map (fun _ => h)
                  (filter (fun s => (Sample.field s "HERD_NO" =? h)%string) gdf))
              l)
  end.

(** [App.replot(title, kind)]; the context map and the folium view are
    left to the presentation layer. *)
Definition replot (w : Widgets) (title : option string) (kind : string)
  : M App unit :=
  (modify (set_ax []) ;;
   on_ax (draw Counties) ;;
   let colorcol := colorbyw w in
   let cmap := cmapw w in
   (if parcelsb w then
      self <- get ;;
      modify (set_parcels (get_parcels self (sub self))) ;;
      self <- get ;;
      match parcels self with
      | None => ret tt
      | Some p => on_ax (draw (Parcels p))
      end
    else ret tt) ;;
   self <- get ;;
   (if (kind =? "points")%string then
      on_ax (plot_single_cluster (sub self) (Some colorcol) (10000 # 1) ""
                                 cmap)
    else if (kind =? "hexbin")%string then
      on_ax (plot_hexbin (sub self) "snp100" 12 "hex" cmap)
    else ret tt) ;;
   (if (labelsw w =? "")%string then ret tt
    else self <- get ;; on_ax (draw (Labels (labelsw w) (sub self)))) ;;
   on_ax (draw ScaleBar) ;;
   on_ax (draw AxisOff) ;;
   match title with
   | Some t => on_ax (draw (SupTitle t))
   | None => ret tt
   end)%py.

(** [App.plot_selected]. *)
Definition plot_selected (w : Widgets) : M App unit :=
  (self <- get ;;
   let cent := cent self in
   let level := cladelevelw w in
   let clades := cladew_selected w in
   if length clades =? 0 then ret tt
   else
     modify (set_sub (filter (fun s => pd.isin (Sample.field s level) clades)
                             cent)) ;;
     let title := (level ++ ":" ++ String.concat "," clades)%string in
     replot w (Some title) "points")%py.

(** [App.plot_in_region]. *)
Definition plot_in_region (w : Widgets) : M App unit :=
  (let '(xmin, xmax, ymin, ymax) := plot_lims w in
   self <- get ;;
   let df := cent self in
   modify (set_sub (cx xmin xmax ymin ymax df)) ;;
   replot w None "points" ;;
   on_ax (draw (XLim (inject_Z xmin) (inject_Z xmax))) ;;
   on_ax (draw (YLim (inject_Z ymin) (inject_Z ymax))))%py.

(** [App.update_clades]: the items of the clade list, the distinct
    labels of the level in sorted order. *)
Definition update_clades (level : string) (self : App) : list string :=
  pd.sort_by String.leb (pd.unique (Sample.col level (cent self))).

End WithPlotting.
End Genie.

(** * Vocabulary of the properties

    Predicates and views in which the properties are stated, and the data
    of the examples. *)

(** ** Views *)

(** [keeps f m]: running [m] does not change the view [f] of the state,
    whether [m] returns or raises. *)
Definition keeps {S A X} (f : S -> X) (m : M S A) : Prop :=
  forall s, f (fst (m s)) = f s.

(** The label of an unclustered sample. *)
Definition sentinel (lab : string) : bool :=
  (lab =? "-1")%string || (lab =? "")%string.


(** The samples drawn as points on the axes. *)
Definition scattered (ax : Axes) : list Sample.t :=
  flat_map (fun a => match a with
                     | Scatter pts _ => map fst pts
                     | ScatterBy _ _ pts => pts
                     | _ => []
                     end) ax.

(** The row of the moves frame for the move [mv] of the sample [s], with
    the herd number [herd] and the centroid [g] of the parcel joined to
    it. *)
Definition move_row (s : Sample.t) (mv : Move.t) (herd : option string)
  (g : option Point) : Trace.t :=
  Trace.mk (Some (Sample.field s "Animal_ID"))
           (Some (Sample.field s "HERD_NO"))
           (Some (Move.move_to mv)) (Some (Move.move_date mv))
           (Some (Move.data_type mv)) (Some (Move.breed mv))
           (Some (Move.dob mv)) herd g.

(** The rows of the frame [get_moves_bytag] returns: one row per move of
    a sample of [df] and per centroid of the herd moved to, and one row
    without centroid for a move to a herd that has none. *)
Definition is_move_row (self : App) (df : list Sample.t)
  (move_df : list Move.t) (r : Trace.t) : Prop :=
  exists s mv,
    In s df /\ In mv move_df /\ Move.tag mv = Sample.field s "Animal_ID" /\
    ((r = move_row s mv None None /\
      forall p, In p (lpis_cent self) ->
                Parcel.SPH_HERD_N p <> Move.move_to mv) \/
     (exists p, In p (lpis_cent self) /\
                Parcel.SPH_HERD_N p = Move.move_to mv /\
                r = move_row s mv (Some (Parcel.SPH_HERD_N p))
                             (Parcel.geometry p))).

(** The parcel centroids recorded for herd [h]. *)
Definition centroids_of (self : App) (h : string) : list Parcel.t :=
  filter (fun p => (Parcel.SPH_HERD_N p =? h)%string) (lpis_cent self).

(** The moves recorded for sample [s]. *)
Definition moves_of (move_df : list Move.t) (s : Sample.t) : list Move.t :=
  filter (fun mv => (Move.tag mv =? Sample.field s "Animal_ID")%string)
         move_df.

(** The rows of one move [mv] of sample [s]: one per centroid of the herd
    moved to, and a single row without geometry when the herd has none. *)
Definition rows_of_move (self : App) (s : Sample.t) (mv : Move.t)
  : list Trace.t :=
  match centroids_of self (Move.move_to mv) with
  | [] => [move_row s mv None None]
  | ps => map (fun p => move_row s mv (Some (Parcel.SPH_HERD_N p))
                                 (Parcel.geometry p)) ps
  end.

(** The rows of every move of every sample of [df], sample by sample. *)
Definition move_rows (self : App) (df : list Sample.t)
  (move_df : list Move.t) : list Trace.t :=
  flat_map (fun s => flat_map (rows_of_move self s) (moves_of move_df s)) df.

(** Row [a] may stand before row [b] in a frame sorted by animal and
    date. *)
Definition animal_date_le (a b : Trace.t) : Prop :=
  match Trace.Animal_ID a, Trace.Animal_ID b with
  | Some x, Some y =>
      String.leb x y = true /\
      (x = y ->
       match Trace.move_date a, Trace.move_date b with
       | Some d, Some e => (d <= e)%Z
       | _, _ => False
       end)
  | _, _ => False
  end.

(** A row of the moves frame that has a geometry. *)
Definition resolved (r : Trace.t) : bool :=
  match Trace.geometry r with Some _ => true | None => false end.

(** The resolved rows of animal [a], and the animals of a moves frame
    that have a segment to draw: at least two resolved rows. *)
Definition trace_of (a : string) (mv : list Trace.t) : list Trace.t :=
  filter (fun r => resolved r &&
                   match Trace.Animal_ID r with
                   | Some a' => (a' =? a)%string
                   | None => false
                   end) mv.

(** The animal identifiers of a moves frame, row by row. *)
Definition animals (mv : list Trace.t) : list string :=
  flat_map (fun r => match Trace.Animal_ID r with
                     | Some a => [a]
                     | None => []
                     end) mv.

Definition animals_with_trace (mv : list Trace.t) : list string :=
  filter (fun a => 1 <? length (trace_of a mv)) (pd.unique (animals mv)).

(** The points of the rows of a trace, in the order of the rows. *)
Definition waypoints (t : list Trace.t) : list Point :=
  flat_map (fun r => match Trace.geometry r with
                     | Some p => [p]
                     | None => []
                     end) t.

(** The segments that join each point of a path to the next one. *)
Definition segments (pts : list Point) : list LineString :=
  map (fun ab => Line (fst ab) (snd ab)) (combine pts (tl pts)).

(** The parcel centroids of the herds that the rows of [t] move to. *)
Definition herds_moved_to (lpis_cent : list Parcel.t) (t : list Trace.t)
  : list Parcel.t :=
  filter (fun p => existsb (fun r => pd.opt_eqb String.eqb (Trace.move_to r)
                                      (Some (Parcel.SPH_HERD_N p))) t)
         lpis_cent.

(** The two layers of one animal with the trace [t], in colour [c]: the
    line through its waypoints and the squares at the herds moved to. *)
Definition move_layers (lpis_cent : list Parcel.t) (t : list Trace.t)
  (c : Color) : list Artist :=
  [Lines c (segments (waypoints t)); Squares c (herds_moved_to lpis_cent t)].

Section BinningVocabulary.
Context {P : Plotting}.

(** Sample [s] lies within cell [j] of the grid. *)
Definition in_cell (grid : list Cell) (j : nat) (s : Sample.t) : bool :=
  match Sample.geometry s, nth_error grid j with
  | Some p, Some c => within p c
  | _, _ => false
  end.

(** The points joined to cell [j], in the order of the join. *)
Definition cell_points (grid : list Cell) (j : nat) (pts : list Sample.t)
  : list Sample.t :=
  filter (in_cell grid j) pts.

(** The dominant-category mapping of [plot_hexbin]: its frame [dissolve],
    column [col], for the grid [grid]. *)
Definition assign_dominant (gdf : list Sample.t) (grid : list Cell)
  (col : string) : list (nat * option string) :=
  Genie.dissolve col (Genie.sjoin (Genie.retained gdf col) grid).

End BinningVocabulary.

(** ** Example data *)

(** An interface for the examples: cells are open rectangles
    (x0, x1, y0, y1), grids are empty, and colour k of a palette is the
    numeral of k. *)
Definition example_plotting : Plotting :=
  {| Cell := Z * Z * Z * Z;
     within := fun p c =>
       let '(x0, x1, y0, y1) := c in
       ((x0 <? fst p) && (fst p <? x1) && (y0 <? snd p) && (snd p <? y1))%Z;
     create_hex_grid := fun _ _ => [];
     create_grid := fun _ _ => [];
     get_color_mapping := fun gdf col _ =>
       (map (fun s => Sample.field s col) gdf,
        map (fun v => (v, v)) (pd.unique (Sample.col col gdf)));
     random_colors := fun n _ => map str (seq 0 n) |}.

(** A sample that has only a clade label at level [snp3]. *)
Definition labelled (lab : string) : Sample.t :=
  Sample.mk (fun c => if (c =? "snp3")%string then lab else "") None.

(** An application that holds the samples [cent] and nothing else. *)
Definition app_of (cent : list Sample.t) : App :=
  mkApp cent [] [] None [] None None None [] [].

(** Widgets with the clade level [level] chosen, the clades [selected]
    picked and the view [lims]; every button released. *)
Definition widgets_of (level : string) (selected : list string)
  (lims : Z * Z * Z * Z) : Widgets :=
  mkWidgets level selected "" "" "" "" false false false lims.

(** A row of the trace of animal T1 with the waypoint [p]. *)
Definition moved_to (p : Point) : Trace.t :=
  Trace.mk (Some "T1") None None None None None None None (Some p).

(** Animal b, listed first, and animal a, each with two waypoints. *)
Definition animals_b_then_a : list Trace.t :=
  [Trace.mk (Some "b") None None None None None None None (Some (0, 0)%Z);
   Trace.mk (Some "b") None None None None None None None (Some (3, 4)%Z);
   Trace.mk (Some "a") None None None None None None None (Some (1, 1)%Z);
   Trace.mk (Some "a") None None None None None None None (Some (2, 2)%Z)].

(** Thirty-one animals, each moved twice to herds with a centroid. *)
Definition thirty_one_animals : list Trace.t :=
  flat_map (fun k =>
              let a := String (ascii_of_nat (48 + k)) EmptyString in
              [Trace.mk (Some a) None (Some "H1") (Some 1%Z) None None None
                        (Some "H1") (Some (0, 0)%Z);
               Trace.mk (Some a) None (Some "H2") (Some 2%Z) None None None
                        (Some "H2") (Some (3, 4)%Z)])
           (seq 0 31).

(** Animal T1 of herd H3, moved to H1 on day 1 and to H2 on day 3; H1 and
    H3 have a centroid, H2 has none. *)
Definition animal_T1 : Sample.t :=
  Sample.mk (fun c => if (c =? "Animal_ID")%string then "T1"
                      else if (c =? "HERD_NO")%string then "H3" else "")
            (Some (10, 10)%Z).

(** The application showing that animal, with its two moves. *)
Definition scenario_H1_H2_H3 : App :=
  mkApp [animal_T1] [animal_T1]
        [Move.mk "T1" "H1" 1 "" "" ""; Move.mk "T1" "H2" 3 "" "" ""]
        None
        [Parcel.mk "H1" (Some (0, 0)%Z); Parcel.mk "H3" (Some (10, 10)%Z)]
        None None None [] [].

(** The application showing thirty-one animals of herd H0, each moved to
    H1 and then to H2; both herds have a centroid. *)
Definition thirty_one_moved : App :=
  let ids :=
    map (fun k => String (ascii_of_nat (48 + k)) EmptyString) (seq 0 31) in
  let animal a :=
    Sample.mk (fun c => if (c =? "Animal_ID")%string then a
                        else if (c =? "HERD_NO")%string then "H0" else "")
              (Some (0, 0)%Z) in
  mkApp (map animal ids) (map animal ids)
        (flat_map (fun a => [Move.mk a "H1" 1 "" "" "";
                             Move.mk a "H2" 2 "" "" ""]) ids)
        None
        [Parcel.mk "H1" (Some (0, 0)%Z); Parcel.mk "H2" (Some (3, 4)%Z)]
        None None None [] [].

(** A sample of clade [lab] at the point [p]. *)
Definition clade_at (lab : string) (p : Point) : Sample.t :=
  Sample.mk (fun c => if (c =? "snp3")%string then lab else "") (Some p).

(** Two square cells side by side. *)
Definition two_cells : list (Z * Z * Z * Z) :=
  [(0, 10, 0, 10)%Z; (10, 20, 0, 10)%Z].

(** * Properties *)

(** ** The sort behind [sort_values], [value_counts] and [groupby] *)

Section SortFacts.
Context {A : Type} (leb : A -> A -> bool).

Lemma insert_by_perm (a : A) (l : list A) :
  Permutation (pd.insert_by leb a l) (a :: l).
Proof.
  induction l as [|b t IH]; simpl.
  - apply Permutation_refl.
  - destruct (leb a b).
    + apply Permutation_refl.
    + eapply perm_trans; [apply perm_skip, IH | apply perm_swap].
Qed.

Lemma sort_by_perm (l : list A) : Permutation (pd.sort_by leb l) l.
Proof.
  induction l as [|a t IH]; simpl.
  - apply perm_nil.
  - eapply perm_trans; [apply insert_by_perm | apply perm_skip, IH].
Qed.

Lemma sort_by_In (l : list A) (a : A) : In a (pd.sort_by leb l) <-> In a l.
Proof.
  split; apply Permutation_in;
    [apply sort_by_perm | apply Permutation_sym, sort_by_perm].
Qed.

Lemma sort_by_length (l : list A) : length (pd.sort_by leb l) = length l.
Proof. apply Permutation_length, sort_by_perm. Qed.

(** Filtering commutes with the sort up to the order of the rows. *)
Lemma filter_insert_by_perm (f : A -> bool) (a : A) (l : list A) :
  Permutation (filter f (pd.insert_by leb a l)) (filter f (a :: l)).
Proof.
  induction l as [|b t IH]; simpl.
  - apply Permutation_refl.
  - destruct (leb a b); simpl.
    + apply Permutation_refl.
    + simpl in IH. destruct (f b), (f a); simpl in *.
      * eapply perm_trans; [apply perm_skip, IH | apply perm_swap].
      * apply perm_skip, IH.
      * exact IH.
      * exact IH.
Qed.

Lemma filter_sort_by_perm (f : A -> bool) (l : list A) :
  Permutation (filter f (pd.sort_by leb l)) (filter f l).
Proof.
  induction l as [|a t IH]; simpl.
  - apply perm_nil.
  - eapply perm_trans; [apply filter_insert_by_perm|].
    simpl. destruct (f a); [apply perm_skip|]; exact IH.
Qed.

Hypothesis leb_total : forall a b, leb a b = true \/ leb b a = true.
Hypothesis leb_trans :
  forall a b c, leb a b = true -> leb b c = true -> leb a c = true.

Lemma insert_by_sorted (a : A) (l : list A) :
  StronglySorted (fun x y => leb x y = true) l ->
  StronglySorted (fun x y => leb x y = true) (pd.insert_by leb a l).
Proof.
  induction 1 as [|b t Ht IH Hb]; simpl.
  - constructor; constructor.
  - destruct (leb a b) eqn:Hab.
    + constructor; [constructor; assumption|].
      constructor; [assumption|].
      eapply Forall_impl; [|exact Hb]. intros c Hc. eauto.
    + constructor; [assumption|].
      assert (Hba : leb b a = true)
        by (destruct (leb_total a b) as [E|E]; congruence).
      eapply Permutation_Forall;
        [apply Permutation_sym, insert_by_perm|].
      constructor; assumption.
Qed.

Lemma sort_by_sorted (l : list A) :
  StronglySorted (fun x y => leb x y = true) (pd.sort_by leb l).
Proof.
  induction l as [|a t IH]; simpl.
  - constructor.
  - now apply insert_by_sorted.
Qed.

(** The first row of the sorted frame is the first row of the frame that
    no row is strictly above. *)
Lemma sort_by_head (l : list A) (h : A) (s : list A) :
  pd.sort_by leb l = h :: s ->
  exists l1 l2,
    l = l1 ++ h :: l2 /\
    Forall (fun q => leb q h = false) l1 /\
    Forall (fun q => leb h q = true) l2.
Proof.
  revert h s. induction l as [|a t IH]; simpl; intros h s E; [discriminate|].
  destruct (pd.sort_by leb t) as [|b s'] eqn:Es.
  - simpl in E. injection E as <- <-.
    assert (t = []) as ->.
    { apply length_zero_iff_nil. rewrite <- (sort_by_length t), Es.
      reflexivity. }
    exists [], []. repeat split; constructor.
  - destruct (IH b s' eq_refl) as (l1 & l2 & -> & H1 & H2).
    simpl in E. destruct (leb a b) eqn:Hab; injection E as <- <-.
    + exists [], (l1 ++ b :: l2). repeat split; [constructor|].
      apply Forall_app. split.
      * eapply Forall_impl; [|exact H1]. intros q Hq. simpl in Hq.
        destruct (leb_total b q) as [E|E]; [eauto | congruence].
      * constructor; [assumption|].
        eapply Forall_impl; [|exact H2]. intros q Hq. eauto.
    + exists (a :: l1), l2. repeat split; [constructor|]; assumption.
Qed.

End SortFacts.

(** ** Distinct values and value counts *)

Lemma filter_andb {A} (f g : A -> bool) (l : list A) :
  filter f (filter g l) = filter (fun x => g x && f x) l.
Proof.
  induction l as [|a t IH]; simpl; [reflexivity|].
  destruct (g a); simpl; [destruct (f a)|]; now rewrite IH.
Qed.

Section UniqueFacts.
Context {K : Type} (eqb : K -> K -> bool).
Hypothesis eqb_spec : forall a b, reflect (a = b) (eqb a b).

Lemma unique_by_In (l : list K) (x : K) :
  In x (pd.unique_by eqb l) <-> In x l.
Proof.
  induction l as [|a t IH]; simpl; [tauto|].
  rewrite filter_In, IH. split.
  - intros [E | [H _]]; auto.
  - intros [E | H]; [now left|].
    destruct (eqb_spec x a) as [->|Hne]; [now left | right].
    split; [assumption|]. now destruct (eqb_spec x a).
Qed.

Lemma unique_by_NoDup (l : list K) : NoDup (pd.unique_by eqb l).
Proof.
  induction l as [|a t IH]; simpl; constructor.
  - rewrite filter_In. intros [_ H].
    now destruct (eqb_spec a a).
  - now apply NoDup_filter.
Qed.

End UniqueFacts.

Lemma isin_In (v : string) (l : list string) :
  pd.isin v l = true <-> In v l.
Proof.
  unfold pd.isin. rewrite existsb_exists. split.
  - intros (y & Hy & E). apply String.eqb_eq in E. now subst.
  - intros H. exists v. split; [assumption | apply String.eqb_refl].
Qed.

Lemma count_cons (v y : string) (l : list string) :
  pd.count v (y :: l) = (if (y =? v)%string then 1 else 0) + pd.count v l.
Proof. unfold pd.count. simpl. now destruct (y =? v)%string. Qed.

Lemma count_pos (v : string) (l : list string) :
  In v l <-> 0 < pd.count v l.
Proof.
  induction l as [|y t IH]; simpl.
  - unfold pd.count. simpl. split; [tauto | lia].
  - rewrite count_cons. destruct (String.eqb_spec y v) as [->|Hne].
    + split; [lia | now left].
    + rewrite IH. simpl. split; [intros [E|H]; [congruence | assumption]|auto].
Qed.

(** Over a list of distinct values, the counts add up to the number of
    rows that hold one of them. *)
Lemma indicator_sum (y : string) (U : list string) :
  NoDup U ->
  list_sum (map (fun v => if (y =? v)%string then 1 else 0) U) =
  if pd.isin y U then 1 else 0.
Proof.
  induction 1 as [|u U Hu HU IH]; simpl; [reflexivity|].
  rewrite IH. rewrite (String.eqb_sym u y).
  destruct (String.eqb_spec y u) as [->|Hne]; simpl; [|reflexivity].
  destruct (pd.isin u U) eqn:E; [|reflexivity].
  apply isin_In in E. contradiction.
Qed.

Lemma sum_counts_distinct (U m : list string) :
  NoDup U ->
  list_sum (map (fun v => pd.count v m) U) =
  length (filter (fun y => pd.isin y U) m).
Proof.
  intros HU. induction m as [|y m IH]; simpl.
  - unfold pd.count. simpl. induction U; simpl; [reflexivity|].
    inversion HU; subst. auto.
  - transitivity
      (list_sum (map (fun v => if (y =? v)%string then 1 else 0) U) +
       list_sum (map (fun v => pd.count v m) U)).
    + clear. induction U as [|u U IHU]; simpl; [reflexivity|].
      rewrite count_cons, IHU. lia.
    + rewrite indicator_sum, IH by assumption.
      destruct (pd.isin y U); simpl; lia.
Qed.

Lemma unique_In (l : list string) (x : string) : In x (pd.unique l) <-> In x l.
Proof. apply unique_by_In, String.eqb_spec. Qed.

Lemma unique_NoDup (l : list string) : NoDup (pd.unique l).
Proof. apply unique_by_NoDup, String.eqb_spec. Qed.

(** The entries of [value_counts] are the distinct values of the column,
    each with its number of rows. *)
Lemma value_counts_In (l : list string) (v : string) (c : nat) :
  In (v, c) (pd.value_counts l) <-> In v l /\ c = pd.count v l.
Proof.
  unfold pd.value_counts. rewrite sort_by_In, in_map_iff. split.
  - intros (x & E & Hx). injection E as -> <-.
    split; [now apply unique_In | reflexivity].
  - intros [Hv ->]. exists v. split; [reflexivity | now apply unique_In].
Qed.


(** The counts kept by a threshold add up to the number of rows whose
    value passes it. *)
Lemma value_counts_sum (f : nat -> bool) (l : list string) :
  list_sum (map snd (filter (fun p => f (snd p)) (pd.value_counts l))) =
  length (filter (fun y => f (pd.count y l)) l).
Proof.
  unfold pd.value_counts.
  rewrite (Permutation_list_sum
             (Permutation_map snd (filter_sort_by_perm _ _ _))).
  rewrite filter_map_swap, map_map. simpl.
  rewrite (sum_counts_distinct _ l)
    by (apply NoDup_filter, unique_NoDup).
  f_equal. apply filter_ext_in. intros y Hy.
  destruct (f (pd.count y l)) eqn:Ef.
  - apply isin_In, filter_In. split; [now apply unique_In | assumption].
  - destruct (pd.isin y _) eqn:E; [|reflexivity].
    apply isin_In, filter_In in E. destruct E as [_ E]. congruence.
Qed.

(** ** The clade index *)

(** C4, as stated, fails: with two samples of clade A and two unclustered
    samples, [update_clades] lists A and the label -1 with two samples
    each, so the counts add up to four and not to the two samples that are
    left once the unclustered ones are taken away. *)
Lemma update_clades_counts_the_sentinel :
  list_sum
    (map snd
       (cladew (fst (update_clades (widgets_of "snp3" [] (0, 0, 0, 0)%Z)
                       (app_of (map labelled ["A"; "A"; "-1"; "-1"])))))) <>
  length (map labelled ["A"; "A"; "-1"; "-1"]) -
  length (filter (fun s => sentinel (Sample.field s "snp3"))
                 (map labelled ["A"; "A"; "-1"; "-1"])).
Proof. vm_compute. discriminate. Qed.

(** C4, amended: [update_clades] returns normally and fills the clade
    widget with exactly the labels of the chosen level that more than one
    sample carries, each with its number of samples, the label of the
    unclustered samples like any other; the listed counts add up to the
    number of samples minus the samples whose label no other sample
    carries. *)
Theorem update_clades_counts_sum (w : Widgets) (self : App) :
  snd (update_clades w self) = Ok tt /\
  (forall lab n,
     In (lab, n) (cladew (fst (update_clades w self))) <->
     In lab (Sample.col (cladelevelw w) (cent self)) /\
     n = pd.count lab (Sample.col (cladelevelw w) (cent self)) /\ 1 < n) /\
  list_sum (map snd (cladew (fst (update_clades w self)))) =
  length (cent self) -
  length (filter
            (fun s => pd.count (Sample.field s (cladelevelw w))
                               (Sample.col (cladelevelw w) (cent self)) =? 1)
            (cent self)).
Proof.
  split; [reflexivity|]. simpl. split.
  - intros lab n. rewrite filter_In, value_counts_In. simpl.
    rewrite Nat.ltb_lt. tauto.
  - rewrite (value_counts_sum (fun n => 1 <? n)).
    unfold Sample.col. rewrite filter_map_swap, length_map.
    set (col := map (fun s0 => Sample.field s0 (cladelevelw w)) (cent self)).
    pose proof (filter_length
                  (fun s => 1 <? pd.count (Sample.field s (cladelevelw w)) col)
                  (cent self)) as Hlen.
    rewrite (filter_ext_in
               (fun s => negb (1 <? pd.count (Sample.field s (cladelevelw w)) col))
               (fun s => pd.count (Sample.field s (cladelevelw w)) col =? 1))
      in Hlen; [lia|].
    intros s Hs.
    assert (0 < pd.count (Sample.field s (cladelevelw w)) col).
    { apply count_pos, in_map_iff. now exists s. }
    destruct (Nat.ltb_spec 1 (pd.count (Sample.field s (cladelevelw w)) col));
      simpl; symmetry; [apply Nat.eqb_neq | apply Nat.eqb_eq]; lia.
Qed.

Lemma StronglySorted_filter {A} (R : A -> A -> Prop) (f : A -> bool)
  (l : list A) :
  StronglySorted R l -> StronglySorted R (filter f l).
Proof.
  induction 1 as [|a t Ht IH Ha]; simpl; [constructor|].
  destruct (f a); [|assumption].
  constructor; [assumption|].
  apply Forall_forall. intros x Hx. apply filter_In in Hx.
  rewrite Forall_forall in Ha. now apply Ha.
Qed.

Lemma StronglySorted_map_in {A B} (R : A -> A -> Prop) (R' : B -> B -> Prop)
  (f : A -> B) (l : list A) :
  (forall x y, In x l -> In y l -> R x y -> R' (f x) (f y)) ->
  StronglySorted R l -> StronglySorted R' (map f l).
Proof.
  intros HR H. induction H as [|a t Ht IH Ha]; simpl; [constructor|].
  constructor.
  - apply IH. intros x y Hx Hy. apply HR; now right.
  - apply Forall_forall. intros b Hb. apply in_map_iff in Hb.
    destruct Hb as (x & <- & Hx). rewrite Forall_forall in Ha.
    apply HR; [now left | now right | now apply Ha].
Qed.




(** ** What a computation leaves as it is *)

Lemma keeps_ret {S A X} (f : S -> X) (a : A) : keeps f (ret a).
Proof. intros s. reflexivity. Qed.

Lemma keeps_raise {S A X} (f : S -> X) (e : exn) : keeps f (@raise S A e).
Proof. intros s. reflexivity. Qed.

Lemma keeps_get {S X} (f : S -> X) : keeps f get.
Proof. intros s. reflexivity. Qed.

Lemma keeps_bind {S A B X} (f : S -> X) (m : M S A) (k : A -> M S B) :
  keeps f m -> (forall a, keeps f (k a)) -> keeps f (bind m k).
Proof.
  intros Hm Hk s. unfold bind. specialize (Hm s).
  destruct (m s) as [s' [a|e]]; simpl in *; [|assumption].
  now rewrite Hk.
Qed.

Lemma keeps_modify {S X} (f : S -> X) (g : S -> S) :
  (forall s, f (g s) = f s) -> keeps f (modify g).
Proof. intros H s. apply H. Qed.

Lemma bind_fst_keeps {S A B X} (f : S -> X) (m : M S A) (k : A -> M S B)
  (s : S) :
  (forall a, keeps f (k a)) -> f (fst (bind m k s)) = f (fst (m s)).
Proof.
  intros Hk. unfold bind. destruct (m s) as [s' [a|e]]; simpl; [|reflexivity].
  apply Hk.
Qed.

Lemma bind_ok {S A B} (m : M S A) (k : A -> M S B) (s s' : S) (a : A) :
  m s = (s', Ok a) -> bind m k s = k a s'.
Proof. intros E. unfold bind. now rewrite E. Qed.

Lemma keeps_on_ax {A X} (f : App -> X) (m : M Axes A) :
  (forall v s, f (set_ax v s) = f s) -> keeps f (on_ax m).
Proof.
  intros H s. unfold on_ax. destruct (m (ax s)) as [ax' r]. apply H.
Qed.

Lemma keeps_Genie_on_ax {A X} (f : Genie.App -> X) (m : M Axes A) :
  (forall v s, f (Genie.set_ax v s) = f s) -> keeps f (Genie.on_ax m).
Proof.
  intros H s. unfold Genie.on_ax. destruct (m (Genie.ax s)) as [ax' r].
  apply H.
Qed.

Ltac keeps_step :=
  first
    [ apply keeps_ret
    | apply keeps_get
    | apply keeps_raise
    | apply keeps_on_ax; reflexivity
    | apply keeps_Genie_on_ax; reflexivity
    | apply keeps_modify; reflexivity
    | apply keeps_bind; [|intros ?]
    | progress unfold show_labels, plot_parcels
    | match goal with
      | |- keeps _ (if ?b then _ else _) => destruct b
      | |- keeps _ (match ?x with _ => _ end) => destruct x
      end ].

Ltac keeps_tac := repeat keeps_step.

Section Handlers.
Context {P : Plotting}.

(** [update] writes the subset only through the jitter, and never the
    sample table, the movement table or the parcel centroids. *)
Lemma update_sub (noise : nat -> Z * Z) (w : Widgets) (self : App) :
  sub (fst (update noise w self)) =
  if jitterb w then jittered noise (sub self) else sub self.
Proof.
  unfold update.
  erewrite bind_ok by reflexivity.
  erewrite bind_ok by reflexivity.
  assert (Hparcels : forall s,
    exists s', (if parcelsb w
                then (self0 <- get ;;
                      modify (set_parcels (get_parcels self0)) ;;
                      plot_parcels)%py
                else ret tt) s = (s', Ok tt) /\ sub s' = sub s).
  { intros s. destruct (parcelsb w); [|now exists s].
    unfold bind, get, modify, plot_parcels, on_ax, draw. simpl.
    destruct (get_parcels s); simpl; eexists; split; reflexivity. }
  destruct (Hparcels (set_ax (ax (set_ax [] self) ++ [Counties])
                             (set_ax [] self))) as (s1 & E1 & Hs1).
  erewrite bind_ok by exact E1. simpl in Hs1.
  destruct (jitterb w).
  - rewrite bind_fst_keeps by (intros; keeps_tac).
    unfold bind, get. rewrite <- Hs1.
    destruct (sub s1) as [|a l] eqn:Es; simpl; [now rewrite Es|].
    reflexivity.
  - erewrite bind_ok by reflexivity.
    rewrite bind_fst_keeps by (intros; keeps_tac). simpl. exact Hs1.
Qed.

Lemma update_keeps_data (noise : nat -> Z * Z) (w : Widgets) :
  keeps (fun s => (cent s, moves s, lpis s, lpis_cent s)) (update noise w).
Proof. unfold update. keeps_tac. Qed.

End Handlers.

(** ** The selection handlers *)

Lemma jittered_fields (noise : nat -> Z * Z) (l : list Sample.t) :
  map Sample.field (jittered noise l) = map Sample.field l.
Proof.
  unfold jittered. rewrite map_map. simpl.
  generalize 0. induction l as [|a t IH]; intros k; simpl; [reflexivity|].
  now rewrite IH.
Qed.

Lemma cx_In (xmin xmax ymin ymax : Z) (df : list Sample.t) (s : Sample.t)
  (x y : Z) :
  In s df -> Sample.geometry s = Some (x, y) ->
  (xmin <= x <= xmax)%Z -> (ymin <= y <= ymax)%Z ->
  In s (cx xmin xmax ymin ymax df).
Proof.
  intros Hs Hg Hx Hy. unfold cx. apply filter_In. split; [assumption|].
  rewrite Hg. rewrite !andb_true_iff, !Z.leb_le. lia.
Qed.

(** C6, as stated, fails: with sample A shown and no clade picked in the
    list, [plot_selected_clade] leaves sample A as the active subset; it
    does not make the empty subset active. *)
Lemma empty_clade_selection_keeps_subset :
  sub (fst (plot_selected_clade (P := example_plotting) (fun _ => (0, 0)%Z)
              (widgets_of "snp3" [] (0, 0, 0, 0)%Z)
              (set_sub [labelled "A"] (app_of [labelled "A"; labelled "B"]))))
  <> [].
Proof. vm_compute. discriminate. Qed.

Section Selection.
Context {P : Plotting}.

(** C6, amended: selecting by clade with no clade picked is not an error
    and changes nothing: the handler returns at once, and the subset that
    was active, its title and the plot stay as they were, in
    [plot_selected_clade] and in [plot_selected] of btbgenietool. *)
Theorem empty_clade_selection_is_noop (noise : nat -> Z * Z) (w : Widgets)
  (self : App) (gself : Genie.App) :
  cladew_selected w = [] ->
  plot_selected_clade noise w self = (self, Ok tt) /\
  Genie.plot_selected w gself = (gself, Ok tt).
Proof.
  intros E. unfold plot_selected_clade, Genie.plot_selected, bind, get.
  rewrite E. split; reflexivity.
Qed.

Lemma Genie_replot_keeps_sub (w : Widgets) (title : option string)
  (kind : string) :
  keeps Genie.sub (Genie.replot w title kind).
Proof. unfold Genie.replot. keeps_tac. Qed.

(** C7: the region selection keeps every sample whose point lies in the
    closed rectangle of the view, so a point with x equal to xmin or xmax,
    or y equal to ymin or ymax, and within the other bounds is selected.
    Its row is in the subset [plot_in_region] leaves; the sample itself
    is, unless the jitter has since moved its point; and it is in the
    subset of [plot_in_region] of btbgenietool. *)
Theorem plot_in_region_inclusive (noise : nat -> Z * Z) (w : Widgets)
  (self : App) (s : Sample.t) (x y xmin xmax ymin ymax : Z) :
  plot_lims w = (xmin, xmax, ymin, ymax) ->
  In s (cent self) ->
  Sample.geometry s = Some (x, y) ->
  (xmin <= x <= xmax)%Z ->
  (ymin <= y <= ymax)%Z ->
  In (Sample.field s)
     (map Sample.field (sub (fst (plot_in_region noise w self)))) /\
  (jitterb w = false -> In s (sub (fst (plot_in_region noise w self)))) /\
  (forall gself,
     In s (Genie.cent gself) ->
     In s (Genie.sub (fst (Genie.plot_in_region w gself)))).
Proof.
  intros Hl Hs Hg Hx Hy.
  assert (Hsub : sub (fst (plot_in_region noise w self)) =
                 if jitterb w
                 then jittered noise (cx xmin xmax ymin ymax (cent self))
                 else cx xmin xmax ymin ymax (cent self)).
  { unfold plot_in_region. rewrite Hl.
    erewrite bind_ok by reflexivity.
    erewrite bind_ok by reflexivity.
    apply update_sub. }
  pose proof (cx_In xmin xmax ymin ymax _ s x y Hs Hg Hx Hy) as Hin.
  rewrite Hsub. split; [|split].
  - destruct (jitterb w); [rewrite jittered_fields|]; now apply in_map.
  - now intros ->.
  - intros gself Hgs. unfold Genie.plot_in_region. rewrite Hl.
    erewrite bind_ok by reflexivity.
    erewrite bind_ok by reflexivity.
    rewrite bind_fst_keeps by (intros; keeps_tac).
    rewrite Genie_replot_keeps_sub. simpl.
    exact (cx_In xmin xmax ymin ymax _ s x y Hgs Hg Hx Hy).
Qed.

End Selection.

(** C6, amended, at the example: sample A shown, nothing picked. *)
Lemma empty_clade_selection_witness :
  cladew_selected (widgets_of "snp3" [] (0, 0, 0, 0)%Z) = [] /\
  plot_selected_clade (P := example_plotting) (fun _ => (0, 0)%Z)
    (widgets_of "snp3" [] (0, 0, 0, 0)%Z)
    (set_sub [labelled "A"] (app_of [labelled "A"; labelled "B"])) =
  (set_sub [labelled "A"] (app_of [labelled "A"; labelled "B"]), Ok tt).
Proof.
  split; [reflexivity|].
  exact (proj1 (empty_clade_selection_is_noop (P := example_plotting)
                  (fun _ => (0, 0)%Z) (widgets_of "snp3" [] (0, 0, 0, 0)%Z)
                  (set_sub [labelled "A"] (app_of [labelled "A"; labelled "B"]))
                  (Genie.mkApp [] [] None None []) eq_refl)).
Defined.

(** C7 at a sample on the left bound of the view, with the jitter on. *)
Lemma plot_in_region_witness :
  In (Sample.field (Sample.mk (fun _ => "T1") (Some (0, 5)%Z)))
     (map Sample.field
        (sub (fst (plot_in_region (P := example_plotting) (fun _ => (3, 4)%Z)
                     (mkWidgets "snp3" [] "" "" "" "" true false false
                                (0, 10, 0, 10)%Z)
                     (app_of [Sample.mk (fun _ => "T1") (Some (0, 5)%Z)]))))).
Proof.
  refine (proj1 (plot_in_region_inclusive (P := example_plotting)
                   (fun _ => (3, 4)%Z)
                   (mkWidgets "snp3" [] "" "" "" "" true false false
                              (0, 10, 0, 10)%Z)
                   (app_of [Sample.mk (fun _ => "T1") (Some (0, 5)%Z)])
                   (Sample.mk (fun _ => "T1") (Some (0, 5)%Z))
                   0 5 0 10 0 10 eq_refl _ eq_refl _ _)).
  - simpl. left. reflexivity.
  - lia.
  - lia.
Defined.

(** ** Line segments of a trace *)

Lemma apply_rows_ok {A B C} (f : A -> result B) (g : C -> A) (h : C -> B)
  (l : list C) :
  (forall c, f (g c) = Ok (h c)) ->
  apply_rows f (map g l) = Ok (map h l).
Proof.
  intros H. induction l as [|c t IH]; simpl; [reflexivity|].
  now rewrite H, IH.
Qed.

(** Every row but the last, next to the geometry of the row below it. *)
Lemma rows_with_successor (p : Point) (t : list Point) :
  removelast (combine (map Some (p :: t)) (pd.shift_up (map Some (p :: t)))) =
  map (fun ab => (Some (fst ab), Some (snd ab))) (combine (p :: t) t).
Proof.
  revert p. induction t as [|q t IH]; intros p; [reflexivity|].
  specialize (IH q). simpl in IH |- *.
  destruct t as [|r t]; [reflexivity|].
  simpl in IH |- *. now rewrite <- IH.
Qed.

Lemma get_coords_data_resolved (df : Trace.frame) (pts : list Point) :
  map Trace.geometry (Trace.rows df) = map Some pts ->
  snd (get_coords_data df) =
  Ok (map (fun ab => Line (fst ab) (snd ab)) (combine pts (tl pts))).
Proof.
  intros E. unfold get_coords_data. simpl. rewrite E.
  destruct pts as [|p t]; [reflexivity|].
  rewrite rows_with_successor. simpl tl.
  now apply apply_rows_ok.
Qed.

(** C3: for a trace of k resolvable waypoints [get_coords_data] returns
    normally; for k >= 2 it returns k - 1 segments, the i-th joining
    waypoint i to waypoint i + 1, and for k < 2 it returns no segment. *)
Theorem get_coords_data_segments (df : Trace.frame) (pts : list Point) :
  map Trace.geometry (Trace.rows df) = map Some pts ->
  exists segs,
    snd (get_coords_data df) = Ok segs /\
    (2 <= length pts -> length segs = length pts - 1) /\
    (forall i p q,
       nth_error pts i = Some p -> nth_error pts (S i) = Some q ->
       nth_error segs i = Some (Line p q)) /\
    (length pts < 2 -> segs = []).
Proof.
  intros E.
  exists (map (fun ab => Line (fst ab) (snd ab)) (combine pts (tl pts))).
  split; [now apply get_coords_data_resolved|].
  split; [|split].
  - intros _. rewrite length_map, length_combine.
    destruct pts as [|a t]; [reflexivity|]. cbn [tl length].
    rewrite Nat.min_r; lia.
  - intros i p q Hp Hq. rewrite nth_error_map.
    assert (Hq' : nth_error (tl pts) i = Some q)
      by (destruct pts; [destruct i; discriminate | exact Hq]).
    clear Hq E. revert Hp Hq'. generalize (tl pts). revert i.
    induction pts as [|a pts IH]; intros [|i] [|b l] Hp Hq;
      simpl in *; try discriminate.
    + injection Hp as ->. injection Hq as ->. reflexivity.
    + now apply IH.
  - intros Hk. destruct pts as [|a [|b t]]; simpl in *; [reflexivity..|lia].
Qed.

(** C3 at a trace of three waypoints. *)
Lemma get_coords_data_witness :
  exists segs,
    snd (get_coords_data
           (Trace.of_rows [moved_to (0, 0)%Z; moved_to (3, 4)%Z;
                           moved_to (6, 0)%Z])) = Ok segs /\
    (2 <= 3 -> length segs = 3 - 1) /\
    (forall i p q,
       nth_error [(0, 0)%Z; (3, 4)%Z; (6, 0)%Z] i = Some p ->
       nth_error [(0, 0)%Z; (3, 4)%Z; (6, 0)%Z] (S i) = Some q ->
       nth_error segs i = Some (Line p q)) /\
    (3 < 2 -> segs = []).
Proof.
  exact (get_coords_data_segments
           (Trace.of_rows [moved_to (0, 0)%Z; moved_to (3, 4)%Z;
                           moved_to (6, 0)%Z])
           [(0, 0)%Z; (3, 4)%Z; (6, 0)%Z] eq_refl).
Defined.

(** ** Side effects *)

(** C8, as stated, fails: [get_coords_data] writes the column P2 into the
    frame it is given, so a frame of two rows is not the same frame after
    the call. *)
Lemma get_coords_data_adds_a_column :
  fst (get_coords_data (Trace.of_rows [moved_to (0, 0)%Z; moved_to (3, 4)%Z]))
  <> Trace.of_rows [moved_to (0, 0)%Z; moved_to (3, 4)%Z].
Proof. vm_compute. discriminate. Qed.

Section SideEffects.
Context {P : Plotting}.

(** C8, amended: the transforms leave the sample table, the movement
    table and the parcel centroids unchanged, but two of them write into
    the frame they work on.  [get_coords_data] adds the column P2, the
    geometry of the next row, and changes no row; called again on the
    frame it has written, it returns the same segments and leaves the
    frame as it is.  [update] replaces the geometry of the active subset
    by jittered points when the jitter is on, keeping every other column,
    and leaves the subset unchanged when the jitter is off. *)
Theorem side_effects_of_the_transforms :
  (forall df,
     Trace.rows (fst (get_coords_data df)) = Trace.rows df /\
     Trace.P2 (fst (get_coords_data df)) =
     Some (pd.shift_up (map Trace.geometry (Trace.rows df))) /\
     get_coords_data (fst (get_coords_data df)) = get_coords_data df) /\
  (forall noise w self,
     cent (fst (update noise w self)) = cent self /\
     moves (fst (update noise w self)) = moves self /\
     lpis_cent (fst (update noise w self)) = lpis_cent self /\
     sub (fst (update noise w self)) =
     (if jitterb w then jittered noise (sub self) else sub self) /\
     map Sample.field (sub (fst (update noise w self))) =
     map Sample.field (sub self)).
Proof.
  split.
  - intros df. repeat split; reflexivity.
  - intros noise w self.
    pose proof (update_keeps_data noise w self) as H.
    injection H as H1 H2 _ H4.
    rewrite update_sub. repeat split; try assumption.
    destruct (jitterb w); [apply jittered_fields | reflexivity].
Qed.

End SideEffects.

(** ** The point plot *)

Lemma points_of_In (df : list Sample.t) (p : Point) :
  In p (points_of df) <-> exists s, In s df /\ Sample.geometry s = Some p.
Proof.
  unfold points_of. rewrite in_flat_map. split.
  - intros (s & Hs & Hp). exists s. split; [assumption|].
    destruct (Sample.geometry s) as [q|]; [|contradiction].
    destruct Hp as [->|[]]. reflexivity.
  - intros (s & Hs & E). exists s. split; [assumption|].
    rewrite E. now left.
Qed.

Lemma points_of_nonempty (df : list Sample.t) :
  points_of (filter (fun s => negb (Sample.is_empty s)) df) = points_of df.
Proof.
  unfold points_of.
  induction df as [|s t IH]; [reflexivity|]. cbn [filter flat_map].
  unfold Sample.is_empty at 1.
  destruct (Sample.geometry s) eqn:E; cbn [negb flat_map].
  - now rewrite E, IH.
  - exact IH.
Qed.

Lemma fold_min_le (a x : Z) (l : list Z) :
  In x (a :: l) -> (fold_right Z.min a l <= x)%Z.
Proof.
  induction l as [|b t IH]; simpl.
  - intros [->|[]]. lia.
  - intros [E|[E|H]]; [specialize (IH (or_introl E)) | subst |
                       specialize (IH (or_intror H))]; lia.
Qed.

Lemma fold_max_ge (a x : Z) (l : list Z) :
  In x (a :: l) -> (x <= fold_right Z.max a l)%Z.
Proof.
  induction l as [|b t IH]; simpl.
  - intros [->|[]]. lia.
  - intros [E|[E|H]]; [specialize (IH (or_introl E)) | subst |
                       specialize (IH (or_intror H))]; lia.
Qed.

(** The bounds of a frame enclose each of its points. *)
Lemma total_bounds_encloses (df : list Sample.t) (s : Sample.t) (x y : Z) :
  In s df -> Sample.geometry s = Some (x, y) ->
  exists minx miny maxx maxy,
    total_bounds df = Some (minx, miny, maxx, maxy) /\
    (minx <= x <= maxx)%Z /\ (miny <= y <= maxy)%Z.
Proof.
  intros Hs Hg.
  assert (Hin : In (x, y) (points_of df))
    by (apply points_of_In; now exists s).
  unfold total_bounds. destruct (points_of df) as [|[x0 y0] ps]; [easy|].
  do 4 eexists. split; [reflexivity|].
  assert (Hx : In x (x0 :: map fst ps))
    by (change (In (fst (x, y)) (map fst ((x0, y0) :: ps))); now apply in_map).
  assert (Hy : In y (y0 :: map snd ps))
    by (change (In (snd (x, y)) (map snd ((x0, y0) :: ps))); now apply in_map).
  repeat split;
    auto using fold_min_le, fold_max_ge.
Qed.

(** What [plot_single_cluster] draws on empty axes. *)
Lemma plot_single_cluster_axes (df : list Sample.t) (col : option string)
  (cmap : string) (margin : option Q) (title : string) :
  let located := filter (fun s => negb (Sample.is_empty s)) df in
  let kept := filter (fun s => pd.isin (Species s) ["Bovine"; "Badger"])
                     located in
  fst (plot_single_cluster df col cmap margin title []) =
  if length located =? 0 then [SetTitle "no locations available"]
  else
    (if match col with None => true | Some c => (c =? "")%string end
     then [Scatter (map (fun s => (s, species_color s)) kept) "o"]
     else [ScatterBy col cmap
                     (filter (fun s => (Species s =? "Bovine")%string) kept);
           Scatter (map (fun s => (s, Some "orange"))
                        (filter (fun s => (Species s =? "Badger")%string) kept))
                   "s"]) ++
    [SetTitle title; AxisOff] ++
    match total_bounds df with
    | None => []
    | Some (minx, miny, maxx, maxy) =>
        let m := match margin with
                 | None => (inject_Z (maxx - minx) * (3 # 10))%Q
                 | Some m => m
                 end in
        [XLim (inject_Z minx - m) (inject_Z maxx + m);
         YLim (inject_Z miny - m) (inject_Z maxy + m); ScaleBar]%Q
    end.
Proof.
  intros located kept. unfold plot_single_cluster. fold located. fold kept.
  destruct (length located =? 0); [reflexivity|].
  unfold total_bounds. subst located. rewrite points_of_nonempty.
  destruct (match col with None => true | Some c => (c =? "")%string end);
    destruct (points_of df) as [|[x0 y0] ps]; reflexivity.
Qed.

(** C10: [plot_single_cluster] draws exactly the located samples whose
    species is Bovine or Badger; a sample of another species is not drawn,
    the subset it belongs to is only read, and the limits of the plot are
    taken from the bounds of all located samples, so they enclose it. *)
Theorem plot_single_cluster_species (df : list Sample.t)
  (col : option string) (cmap : string) (margin : option Q)
  (title : string) :
  (forall s,
     In s (scattered (fst (plot_single_cluster df col cmap margin title []))) <->
     In s df /\ Sample.is_empty s = false /\
     (Species s = "Bovine" \/ Species s = "Badger")) /\
  (forall s x y,
     In s df -> Sample.geometry s = Some (x, y) ->
     exists minx miny maxx maxy,
       total_bounds df = Some (minx, miny, maxx, maxy) /\
       (minx <= x <= maxx)%Z /\ (miny <= y <= maxy)%Z /\
       let m := match margin with
                | None => (inject_Z (maxx - minx) * (3 # 10))%Q
                | Some m => m
                end in
       In (XLim (inject_Z minx - m) (inject_Z maxx + m))%Q
          (fst (plot_single_cluster df col cmap margin title [])) /\
       In (YLim (inject_Z miny - m) (inject_Z maxy + m))%Q
          (fst (plot_single_cluster df col cmap margin title []))).
Proof.
  rewrite plot_single_cluster_axes.
  set (located := filter (fun s => negb (Sample.is_empty s)) df).
  set (kept := filter (fun s => pd.isin (Species s) ["Bovine"; "Badger"])
                      located).
  assert (Hkept : forall s,
             In s kept <->
             In s df /\ Sample.is_empty s = false /\
             (Species s = "Bovine" \/ Species s = "Badger")).
  { intros s. unfold kept, located. rewrite !filter_In, negb_true_iff.
    rewrite isin_In. simpl. intuition congruence. }
  split.
  - intros s. destruct (Nat.eqb_spec (length located) 0) as [E|E].
    + simpl. split; [tauto|]. intros (Hs & He & _).
      apply length_zero_iff_nil in E.
      assert (In s located)
        by (apply filter_In; split; [assumption | now rewrite He]).
      rewrite E in *. contradiction.
    + rewrite <- Hkept.
      destruct (match col with None => true | Some c => (c =? "")%string end);
        unfold scattered; rewrite flat_map_app; simpl;
        rewrite !app_nil_r.
      * rewrite map_map, map_id.
        destruct (total_bounds df) as [[[[? ?] ?] ?]|]; simpl;
          now rewrite app_nil_r.
      * rewrite map_map, map_id.
        assert (Hsplit : In s (filter (fun s => (Species s =? "Bovine")%string)
                                      kept ++
                               filter (fun s => (Species s =? "Badger")%string)
                                      kept) <-> In s kept).
        { rewrite in_app_iff, !filter_In, !String.eqb_eq. split; [tauto|].
          intros H. pose proof (proj1 (Hkept s) H). tauto. }
        destruct (total_bounds df) as [[[[? ?] ?] ?]|]; simpl;
          now rewrite app_nil_r.
  - intros s x y Hs Hg.
    destruct (total_bounds_encloses df s x y Hs Hg)
      as (minx & miny & maxx & maxy & Hb & Hx & Hy).
    exists minx, miny, maxx, maxy. repeat split; try assumption; try lia.
    + rewrite Hb.
      destruct (Nat.eqb_spec (length located) 0) as [E|E].
      * apply length_zero_iff_nil in E.
        assert (In s located).
        { apply filter_In. split; [assumption|].
          unfold Sample.is_empty. now rewrite Hg. }
        rewrite E in *. contradiction.
      * rewrite !in_app_iff. right. right. now left.
    + rewrite Hb.
      destruct (Nat.eqb_spec (length located) 0) as [E|E].
      * apply length_zero_iff_nil in E.
        assert (In s located).
        { apply filter_In. split; [assumption|].
          unfold Sample.is_empty. now rewrite Hg. }
        rewrite E in *. contradiction.
      * rewrite !in_app_iff. right. right. right. now left.
Qed.

(** ** Movement lines and the palette *)

Lemma resolved_points (t : list Trace.t) :
  Forall (fun r => resolved r = true) t ->
  exists pts, map Trace.geometry t = map Some pts /\ length pts = length t.
Proof.
  induction 1 as [|r t Hr _ (pts & E & L)].
  - now exists [].
  - unfold resolved in Hr. destruct (Trace.geometry r) as [p|] eqn:Hp;
      [|discriminate].
    exists (p :: pts). simpl. now rewrite Hp, E, L.
Qed.

Lemma coords_length (t : list Trace.t) :
  Forall (fun r => resolved r = true) t ->
  exists segs,
    snd (get_coords_data (Trace.of_rows t)) = Ok segs /\
    length segs = length t - 1.
Proof.
  intros H. destruct (resolved_points t H) as (pts & E & L).
  eexists. split; [apply get_coords_data_resolved; exact E|].
  rewrite length_map, length_combine, <- L.
  destruct pts as [|a l]; [reflexivity|]. cbn [tl length].
  rewrite Nat.min_r; lia.
Qed.

Section Palette.
Context {P : Plotting}.

(** One turn of the loop of [plot_moves]. *)
Lemma plot_moves_loop_cons (lpis_cent : list Parcel.t) (colors : list Color)
  (tag : string) (t : list Trace.t) (groups : list (string * list Trace.t))
  (i : nat) (ax : Axes) (segs : list LineString) :
  snd (get_coords_data (Trace.of_rows t)) = Ok segs ->
  plot_moves_loop lpis_cent colors ((tag, t) :: groups) i ax =
  if 0 <? length segs then
    match nth_error colors i with
    | Some c =>
        plot_moves_loop lpis_cent colors groups (i + 1)
          ((ax ++ [Lines c segs]) ++
           [Squares c
              (filter (fun p =>
                         existsb (fun r => pd.opt_eqb String.eqb
                                             (Trace.move_to r)
                                             (Some (Parcel.SPH_HERD_N p))) t)
                      lpis_cent)])
    | None => (ax, Raise IndexError)
    end
  else plot_moves_loop lpis_cent colors groups i ax.
Proof.
  intros E. cbn [plot_moves_loop]. unfold bind, lift. rewrite E.
  destruct (0 <? length segs); [|reflexivity].
  unfold index. destruct (nth_error colors i); reflexivity.
Qed.

(** The loop of [plot_moves] uses one colour per group that has a
    segment: it ends normally when the colours from [i] on suffice and
    with IndexError when they do not. *)
Lemma plot_moves_loop_outcome (lpis_cent : list Parcel.t)
  (colors : list Color) (groups : list (string * list Trace.t)) :
  Forall (fun g => Forall (fun r => resolved r = true) (snd g)) groups ->
  forall i ax,
    (i + length (filter (fun g => 1 <? length (snd g)) groups)
       <= length colors ->
     snd (plot_moves_loop lpis_cent colors groups i ax) = Ok tt) /\
    (i <= length colors ->
     length colors <
       i + length (filter (fun g => 1 <? length (snd g)) groups) ->
     snd (plot_moves_loop lpis_cent colors groups i ax) = Raise IndexError).
Proof.
  induction 1 as [|[tag t] groups Ht _ IH]; intros i ax.
  - simpl. split; [reflexivity | lia].
  - destruct (coords_length t Ht) as (segs & Es & Ls).
    rewrite (plot_moves_loop_cons _ _ _ _ _ _ _ _ Es). cbn [filter snd].
    replace (0 <? length segs) with (1 <? length t)
      by (rewrite Ls; destruct (length t) as [|[|k]]; reflexivity).
    destruct (1 <? length t).
    + cbn [length].
      destruct (nth_error colors i) as [c|] eqn:Ec.
      * assert (i < length colors)
          by (apply nth_error_Some; congruence).
        match goal with
        | |- context [plot_moves_loop _ _ _ _ ?ax'] =>
            destruct (IH (i + 1) ax') as [IH1 IH2]
        end.
        split; intros; [apply IH1 | apply IH2]; lia.
      * apply nth_error_None in Ec. simpl.
        split; [lia | reflexivity].
    + destruct (IH i ax) as [IH1 IH2].
      split; intros; [apply IH1 | apply IH2]; lia.
Qed.

End Palette.

Lemma trace_of_groups (a : string) (mv : list Trace.t) :
  filter (fun r => match Trace.Animal_ID r with
                   | Some a' => (a' =? a)%string
                   | None => false
                   end) (filter resolved mv) = trace_of a mv.
Proof. unfold trace_of. apply filter_andb. Qed.

Lemma animals_In (a : string) (mv : list Trace.t) :
  In a (animals mv) <-> exists r, In r mv /\ Trace.Animal_ID r = Some a.
Proof.
  unfold animals. rewrite in_flat_map. split.
  - intros (r & Hr & Ha). exists r. split; [assumption|].
    destruct (Trace.Animal_ID r); [|contradiction].
    destruct Ha as [->|[]]. reflexivity.
  - intros (r & Hr & E). exists r. split; [assumption|].
    rewrite E. now left.
Qed.

Lemma trace_of_animal (a : string) (mv : list Trace.t) :
  (1 <? length (trace_of a mv)) = true ->
  In a (animals mv) /\ In a (animals (filter resolved mv)).
Proof.
  intros H. destruct (trace_of a mv) as [|r t] eqn:E; [discriminate|].
  assert (Hr : In r (trace_of a mv)) by (rewrite E; now left).
  unfold trace_of in Hr. apply filter_In in Hr. destruct Hr as [Hr Hc].
  apply andb_prop in Hc. destruct Hc as [Hres Hid].
  destruct (Trace.Animal_ID r) as [a'|] eqn:Ea; [|discriminate].
  apply String.eqb_eq in Hid. subst a'.
  split; apply animals_In; exists r; split; try assumption.
  apply filter_In. now split.
Qed.

(** The groups of [plot_moves] that have a segment are the animals with a
    trace. *)
Lemma groups_with_segment (mv : list Trace.t) :
  length (filter (fun g => 1 <? length (snd g))
                 (pd.groupby String.eqb String.leb Trace.Animal_ID
                             (filter resolved mv))) =
  length (animals_with_trace mv).
Proof.
  unfold pd.groupby, pd.has_key. rewrite filter_map_swap, length_map. simpl.
  rewrite (Permutation_length (filter_sort_by_perm _ _ _)).
  rewrite (filter_ext _ (fun a => 1 <? length (trace_of a mv)))
    by (intros a; now rewrite trace_of_groups).
  apply Permutation_length, NoDup_Permutation.
  - apply NoDup_filter, (unique_by_NoDup _ String.eqb_spec).
  - apply NoDup_filter, unique_NoDup.
  - intros a. unfold animals_with_trace. rewrite !filter_In.
    fold (animals (filter resolved mv)).
    fold (pd.unique (animals (filter resolved mv))).
    rewrite !unique_In.
    split; intros [_ H]; (split; [apply (trace_of_animal a mv H) | exact H]).
Qed.

Lemma groups_resolved (mv : list Trace.t) :
  Forall (fun g => Forall (fun r => resolved r = true) (snd g))
         (pd.groupby String.eqb String.leb Trace.Animal_ID
                     (filter resolved mv)).
Proof.
  unfold pd.groupby. apply Forall_forall. intros g Hg.
  apply in_map_iff in Hg. destruct Hg as (k & <- & _). simpl.
  apply Forall_forall. intros r Hr.
  apply filter_In in Hr. destruct Hr as [Hr _].
  apply filter_In in Hr. tauto.
Qed.

Section PaletteSize.
Context {P : Plotting}.

(** C9: [plot_moves] takes a palette of 30 colours and uses the next
    colour for each animal that has a segment to draw, so with more than
    30 such animals it raises IndexError; with at most 30 it ends
    normally.  The palette function is not among the sources: that
    [random_colors(30, seed=12)] returns 30 colours is assumed. *)
Theorem plot_moves_palette (self : App) (mv : list Trace.t) (ax0 : Axes) :
  length (random_colors 30 12) = 30 ->
  (30 < length (animals_with_trace mv) ->
   snd (plot_moves self (Some mv) ax0) = Raise IndexError) /\
  (length (animals_with_trace mv) <= 30 ->
   snd (plot_moves self (Some mv) ax0) = Ok tt).
Proof.
  intros Hlen. unfold plot_moves.
  change (filter _ mv) with (filter resolved mv).
  destruct (plot_moves_loop_outcome (lpis_cent self) (random_colors 30 12)
              _ (groups_resolved mv) 0 ax0) as [Hok Hraise].
  rewrite groups_with_segment, Hlen in Hok, Hraise.
  split; intros H; [apply Hraise | apply Hok]; simpl; lia.
Qed.

End PaletteSize.

(** C9 at thirty-one animals with a segment each. *)
Lemma plot_moves_palette_witness :
  length (random_colors (Plotting := example_plotting) 30 12) = 30 /\
  30 < length (animals_with_trace thirty_one_animals) /\
  snd (plot_moves (P := example_plotting) (app_of []) (Some thirty_one_animals)
                  []) = Raise IndexError.
Proof.
  split; [reflexivity|]. split; [vm_compute; lia|].
  apply (proj1 (plot_moves_palette (P := example_plotting) (app_of [])
                  thirty_one_animals [] eq_refl)).
  vm_compute. lia.
Defined.

(** ** The movement resolver *)

(** The rows [get_moves_bytag] returns are rows of moves: the rows of the
    current herds, which it appends, have no [Animal_ID] and are dropped
    again. *)
Lemma get_moves_bytag_only_moves (self : App) (df : list Sample.t)
  (move_df : list Move.t) (m : list Trace.t) (r : Trace.t) :
  get_moves_bytag self df move_df = Some m -> In r m ->
  Trace.Animal_ID r <> None /\ Trace.move_to r <> None.
Proof.
  unfold get_moves_bytag. destruct (length _ =? 0); [discriminate|].
  intros E Hr. injection E as <-.
  apply sort_by_In in Hr. apply filter_In in Hr. destruct Hr as [Hr Hid].
  split; [destruct (Trace.Animal_ID r); [discriminate | discriminate]|].
  apply in_app_or in Hr. destruct Hr as [Hr|Hr].
  - apply in_flat_map in Hr. destruct Hr as (t & Ht & Hr).
    apply in_flat_map in Ht. destruct Ht as (s & _ & Ht).
    apply in_map_iff in Ht. destruct Ht as (mv & <- & _). simpl in Hr.
    destruct (filter _ (lpis_cent self)) as [|p ps].
    + destruct Hr as [<-|[]]. discriminate.
    + destruct Hr as [<-|Hr]; [discriminate|].
      apply in_map_iff in Hr. destruct Hr as (q & <- & _). discriminate.
  - apply in_map_iff in Hr. destruct Hr as (p & <- & _). discriminate.
Qed.

(** C1 on the code: in the scenario the frame of moves holds the move to
    H1 with its centroid and the move to H2 without one, and no row for
    the current herd H3; [plot_moves] then has a single waypoint for the
    animal and draws no line. *)
Theorem current_herd_waypoint_is_dropped :
  get_moves_bytag scenario_H1_H2_H3 (sub scenario_H1_H2_H3)
                  (moves scenario_H1_H2_H3) =
  Some [Trace.mk (Some "T1") (Some "H3") (Some "H1") (Some 1%Z) (Some "")
                 (Some "") (Some "") (Some "H1") (Some (0, 0)%Z);
        Trace.mk (Some "T1") (Some "H3") (Some "H2") (Some 3%Z) (Some "")
                 (Some "") (Some "") None None] /\
  plot_moves (P := example_plotting) scenario_H1_H2_H3
             (get_moves_bytag scenario_H1_H2_H3 (sub scenario_H1_H2_H3)
                              (moves scenario_H1_H2_H3)) [] =
  ([], Ok tt).
Proof. split; vm_compute; reflexivity. Qed.

(** ** Groups *)

Section GroupFacts.
Context {K R : Type} (eqb leb : K -> K -> bool).
Hypothesis eqb_spec : forall a b, reflect (a = b) (eqb a b).
Variable key : R -> option K.

Lemma groupby_keys (rows : list R) :
  Permutation
    (map fst (pd.groupby eqb leb key rows))
    (pd.unique_by eqb
       (flat_map (fun r => match key r with Some k => [k] | None => [] end)
                 rows)).
Proof.
  unfold pd.groupby. rewrite map_map. simpl. rewrite map_id.
  apply sort_by_perm.
Qed.

Lemma groupby_NoDup (rows : list R) :
  NoDup (map fst (pd.groupby eqb leb key rows)).
Proof.
  eapply Permutation_NoDup; [apply Permutation_sym, groupby_keys|].
  now apply unique_by_NoDup.
Qed.

Lemma groupby_key_In (rows : list R) (k : K) :
  In k (map fst (pd.groupby eqb leb key rows)) <->
  exists r, In r rows /\ key r = Some k.
Proof.
  transitivity (In k (pd.unique_by eqb
                        (flat_map (fun r => match key r with
                                            | Some k => [k]
                                            | None => []
                                            end) rows))).
  - split; apply Permutation_in;
      [apply groupby_keys | apply Permutation_sym, groupby_keys].
  - rewrite unique_by_In by assumption. rewrite in_flat_map. split.
    + intros (r & Hr & Hk). exists r. split; [assumption|].
      destruct (key r); [|contradiction]. destruct Hk as [->|[]]. reflexivity.
    + intros (r & Hr & E). exists r. split; [assumption|].
      rewrite E. now left.
Qed.

Lemma groupby_In (rows : list R) (k : K) (g : list R) :
  In (k, g) (pd.groupby eqb leb key rows) ->
  g = filter (pd.has_key eqb key k) rows.
Proof.
  unfold pd.groupby. rewrite in_map_iff. intros (k' & E & _).
  injection E as -> <-. reflexivity.
Qed.

End GroupFacts.

(** ** Grid binning *)

Lemma filter_index {C : Type} (f : C -> bool) (grid : list C) (k j : nat) :
  filter (fun jc => fst jc =? j)
         (filter (fun jc => f (snd jc)) (combine (seq k (length grid)) grid)) =
  match nth_error grid (j - k) with
  | Some c => if (k <=? j) && f c then [(j, c)] else []
  | None => []
  end.
Proof.
  revert k. induction grid as [|c0 grid IH]; intros k.
  - simpl. now destruct (j - k).
  - specialize (IH (S k)). cbn [length seq combine]. cbn [filter snd].
    destruct (Nat.compare_spec j k) as [->|Hlt|Hgt].
    + rewrite Nat.sub_diag, Nat.leb_refl. cbn [nth_error andb].
      assert (IH' : filter (fun jc => fst jc =? k)
                      (filter (fun jc => f (snd jc))
                              (combine (seq (S k) (length grid)) grid)) = []).
      { rewrite IH. replace (S k <=? k) with false
          by (symmetry; apply Nat.leb_gt; lia).
        now destruct (nth_error grid (k - S k)). }
      destruct (f c0); cbn [filter fst]; rewrite ?Nat.eqb_refl, IH';
        reflexivity.
    + assert (IH' : filter (fun jc => fst jc =? j)
                      (filter (fun jc => f (snd jc))
                              (combine (seq (S k) (length grid)) grid)) = []).
      { rewrite IH. replace (S k <=? j) with false
          by (symmetry; apply Nat.leb_gt; lia).
        now destruct (nth_error grid (j - S k)). }
      replace (k <=? j) with false by (symmetry; apply Nat.leb_gt; lia).
      assert (E : (k =? j) = false) by (apply Nat.eqb_neq; lia).
      destruct (f c0); cbn [filter fst]; rewrite ?E, IH';
        now destruct (nth_error (c0 :: grid) (j - k)).
    + replace (j - k) with (S (j - S k)) by lia. cbn [nth_error].
      replace (k <=? j) with true by (symmetry; apply Nat.leb_le; lia).
      replace (S k <=? j) with true in IH
        by (symmetry; apply Nat.leb_le; lia).
      assert (E : (k =? j) = false) by (apply Nat.eqb_neq; lia).
      destruct (f c0); cbn [filter fst]; rewrite ?E; exact IH.
Qed.

Lemma lookup_cell_In {A} (j : nat) (d : list (nat * A)) (a : A) :
  Genie.lookup_cell j d = Some a -> In (j, a) d.
Proof.
  induction d as [|[j' a'] d IH]; simpl; [discriminate|].
  destruct (Nat.eqb_spec j' j) as [->|_].
  - intros E. injection E as ->. now left.
  - intros E. right. now apply IH.
Qed.

(** The most common value of a group: no value of the group occurs more
    often, and every value first seen before it occurs less often. *)
Lemma aggtop_dominant (xs : list string) (lab : string) :
  Genie.aggtop xs = Some lab ->
  exists u1 u2,
    pd.unique xs = u1 ++ lab :: u2 /\
    Forall (fun w => pd.count w xs < pd.count lab xs) u1 /\
    Forall (fun w => pd.count w xs <= pd.count lab xs) u2.
Proof.
  unfold Genie.aggtop, pd.value_counts.
  destruct (pd.sort_by _ _) as [|[v c] s] eqn:E; [discriminate|].
  intros H. injection H as ->.
  apply sort_by_head in E.
  - destruct E as (l1 & l2 & E & H1 & H2).
    apply map_eq_app in E. destruct E as (u1 & u' & Eu & E1 & E2).
    apply map_eq_cons in E2. destruct E2 as (x & u2 & -> & Ex & E2).
    injection Ex as -> <-. subst l1 l2.
    exists u1, u2. split; [assumption|]. split.
    + rewrite Forall_map in H1. eapply Forall_impl; [|exact H1].
      intros w Hw. simpl in Hw. apply Nat.leb_gt in Hw. exact Hw.
    + rewrite Forall_map in H2. eapply Forall_impl; [|exact H2].
      intros w Hw. simpl in Hw. now apply Nat.leb_le in Hw.
  - intros a b. rewrite !Nat.leb_le. lia.
  - intros a b d. rewrite !Nat.leb_le. lia.
Qed.

Lemma aggtop_nonempty (xs : list string) :
  xs <> [] -> exists lab, Genie.aggtop xs = Some lab.
Proof.
  intros H. unfold Genie.aggtop.
  destruct (pd.value_counts xs) as [|[v c] s] eqn:E; [|now exists v].
  destruct xs as [|x xs]; [contradiction|].
  assert (Hin : In (x, pd.count x (x :: xs)) (pd.value_counts (x :: xs)))
    by (apply value_counts_In; split; [now left | reflexivity]).
  rewrite E in Hin. contradiction.
Qed.

Section Hexbin.
Context {P : Plotting}.

(** The rows of the join with [index_right = j] are the points within cell
    [j], each once and in their order. *)
Lemma sjoin_cell (pts : list Sample.t) (grid : list Cell) (j : nat) :
  map fst (filter (pd.has_key Nat.eqb snd j) (Genie.sjoin pts grid)) =
  cell_points grid j pts.
Proof.
  unfold Genie.sjoin, cell_points.
  induction pts as [|s pts IH]; [reflexivity|].
  cbn [flat_map]. rewrite filter_app, map_app, IH. clear IH.
  cbn [filter].
  match goal with
  | |- map fst (filter _ ?rows) ++ _ = _ =>
      assert (E : map fst (filter (pd.has_key Nat.eqb snd j) rows) =
                  if in_cell grid j s then [s] else [])
  end.
  { unfold in_cell.
    destruct (Sample.geometry s) as [p|]; [|reflexivity].
    pose proof (filter_index (within p) grid 0 j) as Hj.
    rewrite Nat.sub_0_r in Hj. cbn [Nat.leb andb] in Hj.
    destruct (filter (fun jc => within p (snd jc))
                     (combine (seq 0 (length grid)) grid))
      as [|jc0 js] eqn:Ejs.
    - cbn [filter] in Hj.
      destruct (nth_error grid j) as [c|]; [|reflexivity].
      destruct (within p c); [discriminate | reflexivity].
    - rewrite filter_map_swap. unfold pd.has_key. cbn [snd].
      rewrite Hj, map_map.
      destruct (nth_error grid j) as [c|]; [|reflexivity].
      destruct (within p c); reflexivity. }
  rewrite E. now destruct (in_cell grid j s).
Qed.

Lemma sjoin_key_In (pts : list Sample.t) (grid : list Cell) (j : nat) :
  (exists r, In r (Genie.sjoin pts grid) /\ snd r = Some j) <->
  exists s, In s pts /\ in_cell grid j s = true.
Proof.
  split.
  - intros (r & Hr & Hj).
    assert (Hin : In (fst r) (cell_points grid j pts)).
    { rewrite <- sjoin_cell. apply in_map, filter_In.
      split; [assumption|]. unfold pd.has_key. rewrite Hj. apply Nat.eqb_refl. }
    apply filter_In in Hin. now exists (fst r).
  - intros (s & Hs & Hc).
    assert (Hin : In s (cell_points grid j pts))
      by (apply filter_In; now split).
    rewrite <- sjoin_cell in Hin. apply in_map_iff in Hin.
    destruct Hin as (r & _ & Hr). apply filter_In in Hr.
    destruct Hr as [Hr Hk]. exists r. split; [assumption|].
    unfold pd.has_key in Hk. destruct (snd r) as [k|]; [|discriminate].
    apply Nat.eqb_eq in Hk. now subst.
Qed.

Lemma retained_In (gdf : list Sample.t) (col : string) (s : Sample.t) :
  In s (Genie.retained gdf col) <->
  In s gdf /\ Sample.field s col <> "-1" /\
  In (Sample.field s col)
     (firstn 10
        (map fst
           (pd.value_counts
              (Sample.col col
                 (filter (fun s => negb (Sample.field s col =? "-1")%string)
                         gdf))))).
Proof.
  unfold Genie.retained. rewrite !filter_In, isin_In, negb_true_iff.
  rewrite String.eqb_neq. tauto.
Qed.

(** C2, amended: the mapping holds one entry for each grid cell that at
    least one retained point lies within, and for no other cell; the
    retained points are the points of [gdf] whose category is not -1 and
    is among the ten most common ones.  The entry of a cell is the
    category that occurs most often among the retained points within it,
    and among several such categories the one first met in the order of
    the points.  A cell is drawn with a category colour only if it has an
    entry. *)
Theorem hexbin_dominant_of_retained (gdf : list Sample.t) (grid : list Cell)
  (col : string) :
  NoDup (map fst (assign_dominant gdf grid col)) /\
  (forall j,
     In j (map fst (assign_dominant gdf grid col)) <->
     exists s, In s (Genie.retained gdf col) /\ in_cell grid j s = true) /\
  (forall j v,
     In (j, v) (assign_dominant gdf grid col) ->
     exists lab u1 u2,
       v = Some lab /\
       pd.unique (Sample.col col
                    (cell_points grid j (Genie.retained gdf col))) =
       u1 ++ lab :: u2 /\
       Forall (fun w =>
                 pd.count w (Sample.col col
                               (cell_points grid j (Genie.retained gdf col))) <
                 pd.count lab (Sample.col col
                                 (cell_points grid j (Genie.retained gdf col))))
              u1 /\
       Forall (fun w =>
                 pd.count w (Sample.col col
                               (cell_points grid j (Genie.retained gdf col))) <=
                 pd.count lab (Sample.col col
                                 (cell_points grid j (Genie.retained gdf col))))
              u2) /\
  (forall snpmap j value color,
     In (j, value, color)
        (Genie.colored_cells grid (assign_dominant gdf grid col) snpmap) ->
     In (j, Some value) (assign_dominant gdf grid col)) /\
  (forall n_cells cmap,
     exists rest,
       fst (Genie.plot_hexbin gdf col n_cells "hex" cmap []) =
       Cells (Genie.colored_cells
                (create_hex_grid (Genie.retained gdf col) n_cells)
                (assign_dominant gdf
                   (create_hex_grid (Genie.retained gdf col) n_cells) col)
                (snd (get_color_mapping (Genie.retained gdf col) col cmap)))
       :: rest).
Proof.
  unfold assign_dominant, Genie.dissolve.
  set (pts := Genie.retained gdf col).
  set (merged := Genie.sjoin pts grid).
  assert (Hkeys : map fst
            (map (fun g => (fst g,
                            Genie.aggtop
                              (map (fun r => Sample.field (fst r) col) (snd g))))
                 (pd.groupby Nat.eqb Nat.leb snd merged)) =
          map fst (pd.groupby Nat.eqb Nat.leb snd merged))
    by (now rewrite map_map).
  split; [|split; [|split; [|split]]].
  - rewrite Hkeys. apply groupby_NoDup, Nat.eqb_spec.
  - intros j. rewrite Hkeys, (groupby_key_In _ _ Nat.eqb_spec).
    apply sjoin_key_In.
  - intros j v Hv. apply in_map_iff in Hv.
    destruct Hv as ([k g] & E & Hg). simpl in E. injection E as -> <-.
    pose proof (groupby_In _ _ _ _ _ _ Hg) as ->.
    assert (Hvals : map (fun r => Sample.field (fst r) col)
                        (filter (pd.has_key Nat.eqb snd j) merged) =
                    Sample.col col (cell_points grid j pts)).
    { unfold Sample.col. rewrite <- sjoin_cell, map_map. reflexivity. }
    rewrite Hvals.
    assert (Hne : Sample.col col (cell_points grid j pts) <> []).
    { assert (Hj : In j (map fst (pd.groupby Nat.eqb Nat.leb snd merged)))
        by (apply in_map_iff;
            now exists (j, filter (pd.has_key Nat.eqb snd j) merged)).
      apply (groupby_key_In _ _ Nat.eqb_spec) in Hj.
      apply sjoin_key_In in Hj. destruct Hj as (s & Hs & Hc).
      assert (Hin : In s (cell_points grid j pts))
        by (apply filter_In; now split).
      intros E. apply map_eq_nil in E. rewrite E in Hin. contradiction. }
    destruct (aggtop_nonempty _ Hne) as (lab & Hlab).
    destruct (aggtop_dominant _ _ Hlab) as (u1 & u2 & Hu & H1 & H2).
    exists lab, u1, u2. now rewrite Hlab.
  - intros snpmap j value color Hc. unfold Genie.colored_cells in Hc.
    apply in_flat_map in Hc. destruct Hc as (k & _ & Hc).
    destruct (Genie.lookup_cell k _) as [[v|]|] eqn:El; try contradiction.
    destruct (Genie.lookup v snpmap); [|contradiction].
    destruct Hc as [E|[]]. injection E as -> -> _.
    now apply lookup_cell_In.
  - intros n_cells cmap. unfold Genie.plot_hexbin. fold pts.
    cbn [String.eqb Ascii.eqb Bool.eqb andb].
    destruct (get_color_mapping pts col cmap) as [clrs snpmap].
    eexists. reflexivity.
Qed.

End Hexbin.

(** C2, as stated, fails: an unclustered point lies within the first cell
    of the grid, yet the first cell has no entry in the mapping, because
    [plot_hexbin] removes the samples of clade -1 before it joins the
    points to the grid. *)
Lemma hexbin_misses_cell_of_unclustered_point :
  (exists s,
     In s [clade_at "-1" (1, 1)%Z; clade_at "A" (11, 1)%Z] /\
     in_cell (P := example_plotting) two_cells 0 s = true) /\
  ~ In 0 (map fst (assign_dominant (P := example_plotting)
                      [clade_at "-1" (1, 1)%Z; clade_at "A" (11, 1)%Z]
                      two_cells "snp3")).
Proof.
  split.
  - exists (clade_at "-1" (1, 1)%Z). split; [now left | reflexivity].
  - vm_compute. intros [H|[]]. discriminate.
Qed.

(** A deer far from the only cow is not drawn, but the limits of the plot
    reach out to it. *)
Example plot_single_cluster_deer :
  let cow := Sample.mk (fun c => if (c =? "Species")%string then "Bovine"
                                 else "") (Some (0, 0)%Z) in
  let deer := Sample.mk (fun c => if (c =? "Species")%string then "Deer"
                                  else "") (Some (100, 100)%Z) in
  fst (plot_single_cluster [cow; deer] None "Set1" (Some (0 # 1)) "" []) =
  [Scatter [(cow, Some "blue")] "o"; SetTitle ""; AxisOff;
   XLim (inject_Z 0 - 0) (inject_Z 100 + 0);
   YLim (inject_Z 0 - 0) (inject_Z 100 + 0); ScaleBar]%Q.
Proof. reflexivity. Qed.

(** * Further properties *)

(** ** The order on labels *)

Lemma ascii_compare_spec (a b : ascii) :
  CompareSpec (a = b) (N_of_ascii a < N_of_ascii b)%N
              (N_of_ascii b < N_of_ascii a)%N (Ascii.compare a b).
Proof.
  unfold Ascii.compare.
  destruct (N.compare_spec (N_of_ascii a) (N_of_ascii b)) as [E|E|E];
    constructor; try assumption.
  rewrite <- (ascii_N_embedding a), <- (ascii_N_embedding b). now rewrite E.
Qed.

Lemma string_leb_trans (a b c : string) :
  String.leb a b = true -> String.leb b c = true -> String.leb a c = true.
Proof.
  unfold String.leb. revert b c.
  induction a as [|x a IH]; intros [|y b] [|z c]; simpl; try easy.
  destruct (ascii_compare_spec x y) as [Hxy|Hxy|Hxy]; try easy;
    destruct (ascii_compare_spec y z) as [Hyz|Hyz|Hyz]; try easy;
    destruct (ascii_compare_spec x z) as [Hxz|Hxz|Hxz]; try easy;
    try subst; try (exfalso; lia).
  apply IH.
Qed.

Lemma string_leb_refl (a : string) : String.leb a a = true.
Proof. destruct (String.leb_total a a); assumption. Qed.

(** ** Samples of the larger clusters *)

Lemma clusts_In (samples : list Sample.t) (col : string) (n : nat)
  (lab : string) :
  In lab (clusts samples col n) <->
  In lab (Sample.col col samples) /\
  n <= pd.count lab (Sample.col col samples).
Proof.
  unfold clusts. rewrite in_map_iff. split.
  - intros ([v c] & E & H). simpl in E. subst v.
    apply filter_In in H. destruct H as [H Hn].
    apply value_counts_In in H. destruct H as [H ->].
    apply Nat.leb_le in Hn. auto.
  - intros [H Hn]. exists (lab, pd.count lab (Sample.col col samples)).
    split; [reflexivity|]. apply filter_In. split.
    + now apply value_counts_In.
    + now apply Nat.leb_le.
Qed.

(** X1: [get_cluster_samples] returns the samples whose label at the level is
    not -1 and is carried by at least [n] samples, each as often as it is
    in the table, and ordered by label. *)
Theorem get_cluster_samples_selection (samples : list Sample.t)
  (col : string) (n : nat) :
  Permutation
    (get_cluster_samples samples col n)
    (filter (fun s => negb (Sample.field s col =? "-1")%string &&
                      (n <=? pd.count (Sample.field s col)
                                      (Sample.col col samples)))
            samples) /\
  StronglySorted
    (fun a b => String.leb (Sample.field a col) (Sample.field b col) = true)
    (get_cluster_samples samples col n) /\
  (forall s,
     In s (get_cluster_samples samples col n) <->
     In s samples /\ Sample.field s col <> "-1" /\
     n <= pd.count (Sample.field s col) (Sample.col col samples)).
Proof.
  assert (HP : Permutation
                 (get_cluster_samples samples col n)
                 (filter (fun s => negb (Sample.field s col =? "-1")%string &&
                                   (n <=? pd.count (Sample.field s col)
                                                   (Sample.col col samples)))
                         samples)).
  { unfold get_cluster_samples.
    eapply perm_trans; [apply sort_by_perm|].
    rewrite filter_andb.
    rewrite (filter_ext_in
               (fun x => negb (Sample.field x col =? "-1")%string &&
                         pd.isin (Sample.field x col) (clusts samples col n))
               (fun s => negb (Sample.field s col =? "-1")%string &&
                         (n <=? pd.count (Sample.field s col)
                                         (Sample.col col samples))));
      [apply Permutation_refl|].
    intros s Hs. f_equal.
    destruct (Nat.leb_spec n (pd.count (Sample.field s col)
                                       (Sample.col col samples))) as [H|H].
    - apply isin_In, clusts_In. split; [|assumption].
      apply in_map_iff. now exists s.
    - destruct (pd.isin _ _) eqn:E; [|reflexivity].
      apply isin_In, clusts_In in E. lia. }
  split; [exact HP|]. split.
  - unfold get_cluster_samples. apply sort_by_sorted.
    + intros a b. apply String.leb_total.
    + intros a b c. apply string_leb_trans.
  - intros s. split.
    + intros H. apply (Permutation_in _ HP) in H. apply filter_In in H.
      destruct H as [H Hc]. apply andb_prop in Hc. destruct Hc as [H1 H2].
      apply negb_true_iff, String.eqb_neq in H1. apply Nat.leb_le in H2.
      tauto.
    + intros (H & H1 & H2). apply (Permutation_in _ (Permutation_sym HP)).
      apply filter_In. split; [assumption|].
      apply andb_true_intro. split.
      * now apply negb_true_iff, String.eqb_neq.
      * now apply Nat.leb_le.
Qed.

(** ** What the selection handlers select *)

Section SelectionResults.
Context {P : Plotting}.

Lemma update_title (noise : nat -> Z * Z) (w : Widgets) (self : App) :
  title (fst (update noise w self)) = title self.
Proof.
  assert (H : keeps title (update noise w)) by (unfold update; keeps_tac).
  apply H.
Qed.

Lemma update_lims (noise : nat -> Z * Z) (w : Widgets) (self : App) :
  lims (fst (update noise w self)) = lims self.
Proof.
  assert (H : keeps lims (update noise w)) by (unfold update; keeps_tac).
  apply H.
Qed.

Lemma update_cent (noise : nat -> Z * Z) (w : Widgets) (self : App) :
  cent (fst (update noise w self)) = cent self.
Proof.
  pose proof (update_keeps_data noise w self) as H. now injection H.
Qed.

Lemma empty_selection_returns (noise : nat -> Z * Z) (w : Widgets)
  (self : App) :
  cladew_selected w = [] ->
  fst (plot_selected_clade noise w self) = self /\
  snd (plot_selected_clade noise w self) = Ok tt.
Proof.
  intros E. unfold plot_selected_clade, bind, get. rewrite E.
  split; reflexivity.
Qed.

Lemma plot_selected_clade_sub (noise : nat -> Z * Z) (w : Widgets)
  (self : App) :
  cladew_selected w <> [] ->
  sub (fst (plot_selected_clade noise w self)) =
  (if jitterb w
   then jittered noise
          (filter (fun s => pd.isin (Sample.field s (cladelevelw w))
                                    (cladew_selected w)) (cent self))
   else filter (fun s => pd.isin (Sample.field s (cladelevelw w))
                                 (cladew_selected w)) (cent self)) /\
  cent (fst (plot_selected_clade noise w self)) = cent self.
Proof.
  intros Hne. unfold plot_selected_clade.
  erewrite bind_ok by reflexivity.
  assert (Hlen : (length (cladew_selected w) =? 0) = false)
    by (destruct (cladew_selected w); [contradiction | reflexivity]).
  rewrite Hlen.
  erewrite bind_ok by reflexivity.
  erewrite bind_ok by reflexivity.
  erewrite bind_ok by reflexivity.
  rewrite update_sub, update_cent. split; reflexivity.
Qed.

Lemma plot_county_sub (noise : nat -> Z * Z) (w : Widgets) (self : App) :
  sub (fst (plot_county noise w self)) =
  (if jitterb w
   then jittered noise
          (filter (fun s => (Sample.field s "County" =? countyw w)%string)
                  (cent self))
   else filter (fun s => (Sample.field s "County" =? countyw w)%string)
               (cent self)) /\
  cent (fst (plot_county noise w self)) = cent self.
Proof.
  unfold plot_county.
  erewrite bind_ok by reflexivity.
  erewrite bind_ok by reflexivity.
  erewrite bind_ok by reflexivity.
  erewrite bind_ok by reflexivity.
  rewrite update_sub, update_cent. split; reflexivity.
Qed.

(** X2: With at least one clade picked, [plot_selected_clade] makes the
    samples whose label at the chosen level is among the picked clades
    the active subset, in table order (jittered when the jitter is on),
    titles the plot with the level, the clades and the number of samples,
    forgets the stored limits and leaves the sample table as it is,
    whether or not drawing then fails. *)
Theorem plot_selected_clade_selects (noise : nat -> Z * Z) (w : Widgets)
  (self : App) :
  cladew_selected w <> [] ->
  sub (fst (plot_selected_clade noise w self)) =
  (if jitterb w
   then jittered noise
          (filter (fun s => pd.isin (Sample.field s (cladelevelw w))
                                    (cladew_selected w)) (cent self))
   else filter (fun s => pd.isin (Sample.field s (cladelevelw w))
                                 (cladew_selected w)) (cent self)) /\
  title (fst (plot_selected_clade noise w self)) =
  Some (cladelevelw w ++ "=" ++ String.concat "," (cladew_selected w) ++
        " n=" ++
        str (length (filter (fun s => pd.isin (Sample.field s (cladelevelw w))
                                              (cladew_selected w))
                            (cent self))))%string /\
  lims (fst (plot_selected_clade noise w self)) = None /\
  cent (fst (plot_selected_clade noise w self)) = cent self.
Proof.
  intros Hne. unfold plot_selected_clade.
  erewrite bind_ok by reflexivity.
  assert (Hlen : (length (cladew_selected w) =? 0) = false)
    by (destruct (cladew_selected w); [contradiction | reflexivity]).
  rewrite Hlen.
  erewrite bind_ok by reflexivity.
  erewrite bind_ok by reflexivity.
  erewrite bind_ok by reflexivity.
  rewrite update_sub, update_cent, update_title, update_lims.
  repeat split; reflexivity.
Qed.

(** X3: [plot_county] makes the samples of the chosen county the active
    subset, in table order, titles the plot with the county and forgets
    the stored limits. *)
Theorem plot_county_selects (noise : nat -> Z * Z) (w : Widgets)
  (self : App) :
  sub (fst (plot_county noise w self)) =
  (if jitterb w
   then jittered noise
          (filter (fun s => (Sample.field s "County" =? countyw w)%string)
                  (cent self))
   else filter (fun s => (Sample.field s "County" =? countyw w)%string)
               (cent self)) /\
  title (fst (plot_county noise w self)) = Some (countyw w) /\
  lims (fst (plot_county noise w self)) = None /\
  cent (fst (plot_county noise w self)) = cent self.
Proof.
  unfold plot_county.
  erewrite bind_ok by reflexivity.
  erewrite bind_ok by reflexivity.
  erewrite bind_ok by reflexivity.
  erewrite bind_ok by reflexivity.
  rewrite update_sub, update_cent, update_title, update_lims.
  repeat split; reflexivity.
Qed.

Lemma plot_in_region_sub (noise : nat -> Z * Z) (w : Widgets) (self : App)
  (xmin xmax ymin ymax : Z) :
  plot_lims w = (xmin, xmax, ymin, ymax) ->
  sub (fst (plot_in_region noise w self)) =
  (if jitterb w
   then jittered noise (cx xmin xmax ymin ymax (cent self))
   else cx xmin xmax ymin ymax (cent self)) /\
  cent (fst (plot_in_region noise w self)) = cent self.
Proof.
  intros Hl. unfold plot_in_region. rewrite Hl.
  erewrite bind_ok by reflexivity.
  erewrite bind_ok by reflexivity.
  rewrite update_sub, update_cent. split; reflexivity.
Qed.

(** X4: With the jitter off, the subset [plot_in_region] leaves holds exactly
    the samples whose point lies in the closed rectangle of the view: a
    sample outside it, or without a location, is never selected. *)
Theorem plot_in_region_exact (noise : nat -> Z * Z) (w : Widgets)
  (self : App) (xmin xmax ymin ymax : Z) :
  plot_lims w = (xmin, xmax, ymin, ymax) ->
  jitterb w = false ->
  (xmin <= xmax)%Z -> (ymin <= ymax)%Z ->
  forall s,
    In s (sub (fst (plot_in_region noise w self))) <->
    In s (cent self) /\
    exists x y, Sample.geometry s = Some (x, y) /\
                (xmin <= x <= xmax)%Z /\ (ymin <= y <= ymax)%Z.
Proof.
  intros Hl Hj Hx Hy s.
  rewrite (proj1 (plot_in_region_sub noise w self _ _ _ _ Hl)), Hj.
  unfold cx. rewrite filter_In.
  rewrite Z.min_l, Z.max_r, Z.min_l, Z.max_r by assumption.
  split.
  - intros [Hs Hc]. split; [assumption|].
    destruct (Sample.geometry s) as [[x y]|]; [|discriminate].
    exists x, y. rewrite !andb_true_iff, !Z.leb_le in Hc.
    split; [reflexivity | lia].
  - intros [Hs (x & y & -> & H1 & H2)]. split; [assumption|].
    rewrite !andb_true_iff, !Z.leb_le. lia.
Qed.

(** X5: With the jitter off, a selection made again with the same widgets
    gives the same subset, by clade, by county and by region. *)
Theorem selection_twice (noise noise' : nat -> Z * Z) (w : Widgets)
  (self : App) :
  jitterb w = false ->
  sub (fst (plot_selected_clade noise' w
              (fst (plot_selected_clade noise w self)))) =
  sub (fst (plot_selected_clade noise w self)) /\
  sub (fst (plot_county noise' w (fst (plot_county noise w self)))) =
  sub (fst (plot_county noise w self)) /\
  sub (fst (plot_in_region noise' w (fst (plot_in_region noise w self)))) =
  sub (fst (plot_in_region noise w self)).
Proof.
  intros Hj. split; [|split].
  - destruct (cladew_selected w) as [|c l] eqn:E.
    + destruct (empty_selection_returns noise w self E) as [-> _].
      now destruct (empty_selection_returns noise' w self E) as [-> _].
    + assert (Hne : cladew_selected w <> []) by (rewrite E; discriminate).
      destruct (plot_selected_clade_sub noise w self Hne) as (H1 & Hc).
      destruct (plot_selected_clade_sub noise' w
                  (fst (plot_selected_clade noise w self)) Hne)
        as (H2 & _).
      rewrite H2, H1, Hc, Hj. reflexivity.
  - destruct (plot_county_sub noise w self) as (H1 & Hc).
    destruct (plot_county_sub noise' w (fst (plot_county noise w self)))
      as (H2 & _).
    rewrite H2, H1, Hc, Hj. reflexivity.
  - destruct (plot_lims w) as [[[xmin xmax] ymin] ymax] eqn:Hl.
    destruct (plot_in_region_sub noise w self _ _ _ _ Hl) as [H1 Hc].
    destruct (plot_in_region_sub noise' w
                (fst (plot_in_region noise w self)) _ _ _ _ Hl) as [H2 _].
    rewrite H2, H1, Hc, Hj. reflexivity.
Qed.

End SelectionResults.

(** ** The frame of moves *)

Lemma flat_map_nil {A B} (f : A -> list B) (l : list A) :
  flat_map f l = [] <-> forall a, In a l -> f a = [].
Proof.
  induction l as [|a t IH]; simpl; [tauto|].
  split.
  - intros E. apply app_eq_nil in E. destruct E as [E1 E2].
    intros b [<-|Hb]; [assumption|]. now apply IH.
  - intros H. rewrite (H a (or_introl eq_refl)).
    apply IH. intros b Hb. apply H. now right.
Qed.

Section MovesFrame.
Variables (self : App) (df : list Sample.t) (move_df : list Move.t).

Lemma left_merge_rows (s : Sample.t) (mv : Move.t) (r : Trace.t) :
  In r match filter (fun p => pd.opt_eqb String.eqb
                                (Some (Parcel.SPH_HERD_N p))
                                (Some (Move.move_to mv))) (lpis_cent self) with
       | [] => [move_row s mv None None]
       | (_ :: _) as ps =>
           map (fun p => move_row s mv (Some (Parcel.SPH_HERD_N p))
                                  (Parcel.geometry p)) ps
       end <->
  (r = move_row s mv None None /\
   forall p, In p (lpis_cent self) ->
             Parcel.SPH_HERD_N p <> Move.move_to mv) \/
  (exists p, In p (lpis_cent self) /\
             Parcel.SPH_HERD_N p = Move.move_to mv /\
             r = move_row s mv (Some (Parcel.SPH_HERD_N p))
                          (Parcel.geometry p)).
Proof.
  set (f := fun p => pd.opt_eqb String.eqb (Some (Parcel.SPH_HERD_N p))
                                (Some (Move.move_to mv))).
  assert (Hf : forall p, In p (filter f (lpis_cent self)) <->
                         In p (lpis_cent self) /\
                         Parcel.SPH_HERD_N p = Move.move_to mv).
  { intros p. rewrite filter_In. unfold f. simpl.
    now rewrite String.eqb_eq. }
  destruct (filter f (lpis_cent self)) as [|p0 ps] eqn:E.
  - split.
    + intros [<-|[]]. left. split; [reflexivity|].
      intros p Hp Heq. apply (proj2 (Hf p)); auto.
    + intros [[-> _]|(p & Hp & Heq & _)]; [now left|].
      exfalso. apply (proj2 (Hf p)); auto.
  - rewrite in_map_iff. split.
    + intros (p & <- & Hp). right. exists p.
      apply Hf in Hp. tauto.
    + intros [[_ Hno]|(p & Hp & Heq & ->)].
      * exfalso. apply (Hno p0); apply (proj1 (Hf p0)); now left.
      * exists p. split; [reflexivity|]. apply Hf. tauto.
Qed.

(** The frame before the rows of the current herds are appended. *)
Lemma merged_rows (m0 : list Trace.t) :
  m0 =
  flat_map (fun r =>
    match filter (fun p => pd.opt_eqb String.eqb (Some (Parcel.SPH_HERD_N p))
                                      (Trace.move_to r)) (lpis_cent self) with
    | [] => [Trace.mk (Trace.Animal_ID r) (Trace.HERD_NO r) (Trace.move_to r)
                      (Trace.move_date r) (Trace.data_type r) (Trace.breed r)
                      (Trace.dob r) None None]
    | (_ :: _) as ps =>
        map (fun p => Trace.mk (Trace.Animal_ID r) (Trace.HERD_NO r)
                               (Trace.move_to r) (Trace.move_date r)
                               (Trace.data_type r) (Trace.breed r)
                               (Trace.dob r) (Some (Parcel.SPH_HERD_N p))
                               (Parcel.geometry p)) ps
    end)
    (flat_map (fun s =>
       map (fun mv => move_row s mv None None)
           (filter (fun mv => (Move.tag mv =? Sample.field s "Animal_ID")%string)
                   move_df)) df) ->
  (forall r, In r m0 <-> is_move_row self df move_df r) /\
  (m0 = [] <->
   forall s mv, In s df -> In mv move_df ->
                Move.tag mv <> Sample.field s "Animal_ID").
Proof.
  intros ->. split.
  - intros r. rewrite in_flat_map. unfold is_move_row. split.
    + intros (t & Ht & Hr). apply in_flat_map in Ht.
      destruct Ht as (s & Hs & Ht). apply in_map_iff in Ht.
      destruct Ht as (mv & <- & Hmv). apply filter_In in Hmv.
      destruct Hmv as [Hmv Htag]. apply String.eqb_eq in Htag.
      exists s, mv. repeat split; try assumption.
      now apply (left_merge_rows s mv r).
    + intros (s & mv & Hs & Hmv & Htag & Hr).
      exists (move_row s mv None None). split.
      * apply in_flat_map. exists s. split; [assumption|].
        apply (in_map (fun mv => move_row s mv None None)), filter_In.
        split; [assumption|]. now apply String.eqb_eq.
      * now apply (left_merge_rows s mv r).
  - rewrite flat_map_nil. split.
    + intros H s mv Hs Hmv Htag.
      specialize (H (move_row s mv None None)).
      assert (Hin : In (move_row s mv None None)
                 (flat_map (fun s =>
                    map (fun mv => move_row s mv None None)
                        (filter (fun mv => (Move.tag mv =?
                                            Sample.field s "Animal_ID")%string)
                                move_df)) df)).
      { apply in_flat_map. exists s. split; [assumption|].
        apply (in_map (fun mv => move_row s mv None None)), filter_In.
        split; [assumption|]. now apply String.eqb_eq. }
      specialize (H Hin). simpl in H.
      destruct (filter _ (lpis_cent self)); discriminate.
    + intros H t Ht. exfalso. apply in_flat_map in Ht.
      destruct Ht as (s & Hs & Ht). apply in_map_iff in Ht.
      destruct Ht as (mv & _ & Hmv). apply filter_In in Hmv.
      destruct Hmv as [Hmv Htag]. apply String.eqb_eq in Htag.
      exact (H s mv Hs Hmv Htag).
Qed.

End MovesFrame.

Lemma opt_eqb_spec (a b : option string) :
  reflect (a = b) (pd.opt_eqb String.eqb a b).
Proof.
  destruct a as [x|], b as [y|]; simpl; try (constructor; congruence).
  destruct (String.eqb_spec x y); constructor; congruence.
Qed.

Section OptionOrder.
Context {A : Type} (leb : A -> A -> bool).
Hypothesis leb_total : forall a b, leb a b = true \/ leb b a = true.
Hypothesis leb_trans :
  forall a b c, leb a b = true -> leb b c = true -> leb a c = true.

Lemma opt_leb_total (a b : option A) :
  pd.opt_leb leb a b = true \/ pd.opt_leb leb b a = true.
Proof. destruct a, b; simpl; auto. Qed.

Lemma opt_leb_trans (a b c : option A) :
  pd.opt_leb leb a b = true -> pd.opt_leb leb b c = true ->
  pd.opt_leb leb a c = true.
Proof. destruct a, b, c; simpl; try easy. apply leb_trans. Qed.

End OptionOrder.

Lemma opt_leb_antisym (a b : option string) :
  pd.opt_leb String.leb a b = true -> pd.opt_leb String.leb b a = true ->
  a = b.
Proof.
  destruct a, b; simpl; try easy.
  intros H1 H2. f_equal. now apply String.leb_antisym.
Qed.

(** The order of [sort_values(by=['Animal_ID','move_date'])]. *)
Lemma by_animal_date_total (a b : Trace.t) :
  (if pd.opt_eqb String.eqb (Trace.Animal_ID a) (Trace.Animal_ID b)
   then pd.opt_leb Z.leb (Trace.move_date a) (Trace.move_date b)
   else pd.opt_leb String.leb (Trace.Animal_ID a) (Trace.Animal_ID b)) = true \/
  (if pd.opt_eqb String.eqb (Trace.Animal_ID b) (Trace.Animal_ID a)
   then pd.opt_leb Z.leb (Trace.move_date b) (Trace.move_date a)
   else pd.opt_leb String.leb (Trace.Animal_ID b) (Trace.Animal_ID a)) = true.
Proof.
  destruct (opt_eqb_spec (Trace.Animal_ID a) (Trace.Animal_ID b)) as [E|E];
    destruct (opt_eqb_spec (Trace.Animal_ID b) (Trace.Animal_ID a)) as [E'|E'];
    try congruence.
  - apply opt_leb_total. intros x y. rewrite !Z.leb_le. lia.
  - apply opt_leb_total, String.leb_total.
Qed.

Lemma by_animal_date_trans (a b c : Trace.t) :
  (if pd.opt_eqb String.eqb (Trace.Animal_ID a) (Trace.Animal_ID b)
   then pd.opt_leb Z.leb (Trace.move_date a) (Trace.move_date b)
   else pd.opt_leb String.leb (Trace.Animal_ID a) (Trace.Animal_ID b)) = true ->
  (if pd.opt_eqb String.eqb (Trace.Animal_ID b) (Trace.Animal_ID c)
   then pd.opt_leb Z.leb (Trace.move_date b) (Trace.move_date c)
   else pd.opt_leb String.leb (Trace.Animal_ID b) (Trace.Animal_ID c)) = true ->
  (if pd.opt_eqb String.eqb (Trace.Animal_ID a) (Trace.Animal_ID c)
   then pd.opt_leb Z.leb (Trace.move_date a) (Trace.move_date c)
   else pd.opt_leb String.leb (Trace.Animal_ID a) (Trace.Animal_ID c)) = true.
Proof.
  destruct (opt_eqb_spec (Trace.Animal_ID a) (Trace.Animal_ID b)) as [E1|E1];
    destruct (opt_eqb_spec (Trace.Animal_ID b) (Trace.Animal_ID c)) as [E2|E2];
    destruct (opt_eqb_spec (Trace.Animal_ID a) (Trace.Animal_ID c)) as [E3|E3];
    try congruence; intros H1 H2.
  - eapply opt_leb_trans; [|exact H1|exact H2].
    intros x y z. rewrite !Z.leb_le. lia.
  - exfalso. apply E1. apply opt_leb_antisym; [assumption|].
    now rewrite E3.
  - eapply opt_leb_trans; [apply string_leb_trans|exact H1|exact H2].
Qed.

Lemma flat_map_flat_map {A B C} (f : A -> list B) (g : B -> list C)
  (l : list A) :
  flat_map g (flat_map f l) = flat_map (fun a => flat_map g (f a)) l.
Proof.
  induction l as [|a t IH]; simpl; [reflexivity|].
  now rewrite flat_map_app, IH.
Qed.

Lemma flat_map_of_map {A B C} (f : A -> B) (g : B -> list C) (l : list A) :
  flat_map g (map f l) = flat_map (fun a => g (f a)) l.
Proof. induction l as [|a t IH]; simpl; [reflexivity | now rewrite IH]. Qed.

Lemma filter_all {A} (f : A -> bool) (l : list A) :
  (forall a, In a l -> f a = true) -> filter f l = l.
Proof.
  induction l as [|a t IH]; intros H; simpl; [reflexivity|].
  rewrite (H a (or_introl eq_refl)), IH; [reflexivity|].
  intros b Hb. apply H. now right.
Qed.

Lemma filter_none {A} (f : A -> bool) (l : list A) :
  (forall a, In a l -> f a = false) -> filter f l = [].
Proof.
  induction l as [|a t IH]; intros H; simpl; [reflexivity|].
  rewrite (H a (or_introl eq_refl)). apply IH.
  intros b Hb. apply H. now right.
Qed.

Lemma length_flat_map {A B} (f : A -> list B) (l : list A) :
  length (flat_map f l) = list_sum (map (fun a => length (f a)) l).
Proof.
  induction l as [|a t IH]; simpl; [reflexivity|].
  now rewrite length_app, IH.
Qed.

Lemma rows_of_move_length (self : App) (s : Sample.t) (mv : Move.t) :
  length (rows_of_move self s mv) =
  Nat.max 1 (length (centroids_of self (Move.move_to mv))).
Proof.
  unfold rows_of_move.
  destruct (centroids_of self (Move.move_to mv)) as [|p ps];
    [reflexivity|].
  rewrite length_map. cbn [length]. lia.
Qed.

Section MovesFrameResults.
Variables (self : App) (df : list Sample.t) (move_df : list Move.t).

(** X6: [get_moves_bytag] returns nothing exactly when no sample of the
    selection has a recorded move. *)
Theorem get_moves_bytag_none :
  get_moves_bytag self df move_df = None <->
  forall s mv, In s df -> In mv move_df ->
               Move.tag mv <> Sample.field s "Animal_ID".
Proof.
  unfold get_moves_bytag.
  match goal with
  | |- context [length ?m =? 0] => remember m as m0 eqn:Em
  end.
  destruct (merged_rows self df move_df m0 Em) as [_ Hnil].
  destruct (Nat.eqb_spec (length m0) 0) as [L|L].
  - apply length_zero_iff_nil in L.
    split; [intros _; exact (proj1 Hnil L) | reflexivity].
  - split; [discriminate|]. intros H. apply (proj2 Hnil) in H.
    rewrite H in L. now elim L.
Qed.

(** X7: The frame [get_moves_bytag] returns holds the rows of the moves of
    the selected samples and no other row, each as often as the merges
    give it: the frame is a rearrangement of the list that has, for each
    selected sample and each of its moves, one row per parcel centroid of
    the herd moved to, with that centroid, and a single row without
    geometry when the herd has no centroid.  So its number of rows is the
    number of moves of the selected samples, a move counted once per
    centroid of its herd. *)
Theorem get_moves_bytag_rows (m : list Trace.t) :
  get_moves_bytag self df move_df = Some m ->
  (forall r, In r m <-> is_move_row self df move_df r) /\
  Permutation m (move_rows self df move_df) /\
  length m =
  list_sum
    (map (fun s =>
            list_sum
              (map (fun mv =>
                      Nat.max 1 (length (centroids_of self (Move.move_to mv))))
                   (moves_of move_df s))) df).
Proof.
  intros E.
  assert (Hperm : Permutation m (move_rows self df move_df)).
  { unfold get_moves_bytag in E.
    destruct (length _ =? 0); [discriminate|]. injection E as <-.
    eapply perm_trans; [apply sort_by_perm|].
    rewrite filter_app, (filter_none _ (map _ _)), app_nil_r.
    - rewrite filter_all.
      + rewrite flat_map_flat_map. unfold move_rows.
        apply Permutation_refl'. apply flat_map_ext. intros s.
        rewrite flat_map_of_map. reflexivity.
      + intros r Hr. apply in_flat_map in Hr. destruct Hr as (t & Ht & Hr).
        apply in_flat_map in Ht. destruct Ht as (s & _ & Ht).
        apply in_map_iff in Ht. destruct Ht as (mv & <- & _).
        simpl in Hr. destruct (filter _ (lpis_cent self)) as [|p ps].
        * destruct Hr as [<-|[]]. reflexivity.
        * destruct Hr as [<-|Hr]; [reflexivity|].
          apply in_map_iff in Hr. destruct Hr as (q & <- & _). reflexivity.
    - intros r Hr. apply in_map_iff in Hr.
      destruct Hr as (q & <- & _). reflexivity. }
  split; [|split; [exact Hperm|]].
  - revert E. unfold get_moves_bytag.
    match goal with
    | |- context [length ?m =? 0] => remember m as m0 eqn:Em
    end.
    destruct (merged_rows self df move_df m0 Em) as [Hrows _].
    destruct (length m0 =? 0); [discriminate|].
    intros E r. injection E as <-.
    rewrite sort_by_In, filter_In, in_app_iff, Hrows. split.
    + intros [[Hr|Hx] Hid]; [assumption|].
      apply in_map_iff in Hx. destruct Hx as (p & <- & _). discriminate.
    + intros Hr. split; [now left|].
      destruct Hr as (s & mv & _ & _ & _ & [[-> _]|(p & _ & _ & ->)]);
        reflexivity.
  - rewrite (Permutation_length Hperm). unfold move_rows.
    rewrite length_flat_map. f_equal. apply map_ext. intros s.
    rewrite length_flat_map. f_equal. apply map_ext. intros mv.
    apply rows_of_move_length.
Qed.

(** Every row of the frame carries the animal and the date of a move. *)
Lemma get_moves_bytag_dated (m : list Trace.t) (r : Trace.t) :
  get_moves_bytag self df move_df = Some m -> In r m ->
  exists a d, Trace.Animal_ID r = Some a /\ Trace.move_date r = Some d.
Proof.
  unfold get_moves_bytag. destruct (length _ =? 0); [discriminate|].
  intros E Hr. injection E as <-.
  apply sort_by_In in Hr. apply filter_In in Hr. destruct Hr as [Hr Hid].
  apply in_app_or in Hr. destruct Hr as [Hr|Hr].
  - apply in_flat_map in Hr. destruct Hr as (t & Ht & Hr).
    apply in_flat_map in Ht. destruct Ht as (s & _ & Ht).
    apply in_map_iff in Ht. destruct Ht as (mv & <- & _). simpl in Hr.
    destruct (filter _ (lpis_cent self)) as [|p ps].
    + destruct Hr as [<-|[]]. simpl. eauto.
    + destruct Hr as [<-|Hr]; [simpl; eauto|].
      apply in_map_iff in Hr. destruct Hr as (q & <- & _). simpl. eauto.
  - apply in_map_iff in Hr. destruct Hr as (p & <- & _). discriminate.
Qed.

(** X8: The frame [get_moves_bytag] returns is sorted by animal and, for one
    animal, by date of the move. *)
Theorem get_moves_bytag_sorted (m : list Trace.t) :
  get_moves_bytag self df move_df = Some m ->
  StronglySorted animal_date_le m.
Proof.
  intros E. pose proof (get_moves_bytag_dated m) as Hrows.
  specialize (fun r => Hrows r E).
  unfold get_moves_bytag in E.
  destruct (length _ =? 0); [discriminate|]. injection E as E.
  rewrite <- (map_id m).
  eapply StronglySorted_map_in;
    [|rewrite <- E; apply sort_by_sorted;
      [apply by_animal_date_total | apply by_animal_date_trans]].
  intros x y Hx Hy. apply Hrows in Hx, Hy.
  destruct Hx as (a & d & Ea & Ed). destruct Hy as (b & e & Eb & Ee).
  unfold animal_date_le. rewrite Ea, Eb, Ed, Ee. simpl.
  destruct (String.eqb_spec a b) as [->|Hne]; intros H.
  - split; [apply string_leb_refl | intros _; now apply Z.leb_le].
  - split; [assumption | congruence].
Qed.

End MovesFrameResults.

(** ** Colours of the movement lines *)

Lemma skipn_nth_error {A} (l : list A) (i : nat) (c : A) :
  nth_error l i = Some c -> skipn i l = c :: skipn (S i) l.
Proof.
  revert i. induction l as [|a l IH]; intros [|i] H; simpl in *;
    try discriminate.
  - now injection H as ->.
  - now apply IH.
Qed.

Lemma waypoints_resolved (t : list Trace.t) :
  Forall (fun r => resolved r = true) t ->
  map Trace.geometry t = map Some (waypoints t) /\
  length (waypoints t) = length t.
Proof.
  induction 1 as [|r t Hr _ [E L]]; [now split|].
  unfold resolved in Hr. unfold waypoints. cbn [flat_map map length].
  fold (waypoints t).
  destruct (Trace.geometry r) as [p|]; [|discriminate].
  cbn [app map length]. now rewrite E, L.
Qed.

Lemma segments_length (pts : list Point) :
  length (segments pts) = length pts - 1.
Proof.
  unfold segments. rewrite length_map, length_combine.
  destruct pts as [|a l]; [reflexivity|]. cbn [tl length].
  rewrite Nat.min_r; lia.
Qed.

Lemma combine_map_l {A B C} (f : A -> B) (l : list A) (l' : list C) :
  combine (map f l) l' = map (fun p => (f (fst p), snd p)) (combine l l').
Proof.
  revert l'. induction l as [|a t IH]; intros [|c l']; simpl;
    try reflexivity.
  now rewrite IH.
Qed.

(** A list without repetition that is sorted is strictly sorted. *)
Lemma sorted_strict (l : list string) :
  NoDup l -> StronglySorted (fun a b => String.leb a b = true) l ->
  StronglySorted (fun a b => String.leb a b = true /\ a <> b) l.
Proof.
  induction l as [|a t IH]; intros Hnd Hs; [constructor|].
  inversion Hnd as [|? ? Ha Ht]; subst.
  inversion Hs as [|? ? Hs' Hall]; subst.
  constructor; [now apply IH|].
  apply Forall_forall. intros b Hb. split.
  - rewrite Forall_forall in Hall. now apply Hall.
  - intros ->. contradiction.
Qed.

Section LineColours.
Context {P : Plotting}.

(** The loop of [plot_moves] adds the two layers of every group that has
    a segment, in the order of the groups, each in the next colour. *)
Lemma plot_moves_loop_layers (lpis_cent : list Parcel.t)
  (colors : list Color) (groups : list (string * list Trace.t)) :
  Forall (fun g => Forall (fun r => resolved r = true) (snd g)) groups ->
  forall i ax,
    i + length (filter (fun g => 1 <? length (snd g)) groups)
      <= length colors ->
    fst (plot_moves_loop lpis_cent colors groups i ax) =
    ax ++
    flat_map (fun gc => move_layers lpis_cent (snd (fst gc)) (snd gc))
             (combine (filter (fun g => 1 <? length (snd g)) groups)
                      (skipn i colors)).
Proof.
  induction 1 as [|[tag t] groups Ht _ IH]; intros i ax Hi.
  - simpl. now rewrite app_nil_r.
  - destruct (waypoints_resolved t Ht) as [E L].
    pose proof (get_coords_data_resolved (Trace.of_rows t) (waypoints t) E)
      as Es.
    fold (segments (waypoints t)) in Es.
    rewrite (plot_moves_loop_cons _ _ _ _ _ _ _ _ Es).
    cbn [filter snd] in Hi |- *.
    replace (0 <? length (segments (waypoints t))) with (1 <? length t)
      by (rewrite segments_length, L;
          destruct (length t) as [|[|k]]; reflexivity).
    destruct (1 <? length t); [|now apply IH].
    cbn [length] in Hi.
    destruct (nth_error colors i) as [c|] eqn:Ec.
    + rewrite IH by lia.
      rewrite (skipn_nth_error _ _ _ Ec).
      cbn [combine flat_map fst snd]. unfold move_layers at 2.
      unfold herds_moved_to.
      replace (i + 1) with (S i) by lia.
      rewrite <- !app_assoc. reflexivity.
    + apply nth_error_None in Ec. lia.
Qed.

(** X9: When at most 30 animals have a segment, [plot_moves] draws for
    each of them, and for no other, one line layer through its waypoints
    followed by one layer of square markers at the herds it moved to.
    The animals come in the increasing order of their identifiers, and
    the k-th of them is drawn in the k-th colour of the palette.  That
    [random_colors(30, seed=12)] returns 30 colours is assumed. *)
Theorem plot_moves_colors (self : App) (mv : list Trace.t) :
  length (random_colors 30 12) = 30 ->
  length (animals_with_trace mv) <= 30 ->
  exists order,
    Permutation order (animals_with_trace mv) /\
    StronglySorted (fun a b => String.leb a b = true /\ a <> b) order /\
    fst (plot_moves self (Some mv) []) =
    flat_map (fun ac => move_layers (lpis_cent self)
                                    (trace_of (fst ac) mv) (snd ac))
             (combine order (random_colors 30 12)).
Proof.
  intros Hlen Hn.
  set (keys := pd.unique (animals (filter resolved mv))).
  set (seg := fun a => 1 <? length (trace_of a mv)).
  exists (filter seg (pd.sort_by String.leb keys)).
  assert (Hperm : Permutation (filter seg (pd.sort_by String.leb keys))
                              (animals_with_trace mv)).
  { eapply perm_trans; [apply filter_sort_by_perm|].
    apply NoDup_Permutation.
    - apply NoDup_filter, unique_NoDup.
    - apply NoDup_filter, unique_NoDup.
    - intros a. unfold animals_with_trace, keys, seg.
      rewrite !filter_In, !unique_In.
      split; intros [_ H];
        (split; [apply (trace_of_animal a mv H) | exact H]). }
  split; [exact Hperm|]. split.
  - apply sorted_strict.
    + apply NoDup_filter. eapply Permutation_NoDup;
        [apply Permutation_sym, sort_by_perm | apply unique_NoDup].
    + apply StronglySorted_filter.
      apply (sort_by_sorted String.leb String.leb_total string_leb_trans).
  - unfold plot_moves. change (filter _ mv) with (filter resolved mv).
    rewrite plot_moves_loop_layers.
    + cbn [app skipn]. unfold pd.groupby.
      fold (animals (filter resolved mv)).
      fold (pd.unique (animals (filter resolved mv))). fold keys.
      rewrite filter_map_swap. cbn [snd].
      rewrite (filter_ext _ seg)
        by (intros a; unfold seg, pd.has_key; now rewrite trace_of_groups).
      rewrite combine_map_l, flat_map_of_map.
      apply flat_map_ext. intros [a c]. cbn [fst snd].
      unfold pd.has_key. now rewrite trace_of_groups.
    + apply groups_resolved.
    + rewrite groups_with_segment, Hlen. simpl. lia.
Qed.

End LineColours.

(** ** Outcome of the redraw *)

Lemma fails_bind {S A B X} (f : S -> X) (m : M S A) (k : A -> M S B)
  (s : S) :
  keeps f m ->
  (forall a s', f s' = f s -> exists e, snd (k a s') = Raise e) ->
  exists e, snd (bind m k s) = Raise e.
Proof.
  intros Hm Hk. unfold bind. specialize (Hm s).
  destruct (m s) as [s' [a|e]]; simpl in *; [now apply Hk | eauto].
Qed.

Lemma fails_now {S A B} (m : M S A) (k : A -> M S B) (s : S) :
  (exists e, snd (m s) = Raise e) -> exists e, snd (bind m k s) = Raise e.
Proof.
  intros [e He]. exists e. unfold bind.
  destruct (m s) as [s' [a|e']]; simpl in *; congruence.
Qed.

Lemma snd_on_ax {A} (m : M Axes A) (s : App) :
  snd (on_ax m s) = snd (m (ax s)).
Proof. unfold on_ax. now destruct (m (ax s)). Qed.

Lemma flat_map_same_view {A B C} (f : A -> B) (g : A -> list C)
  (l l' : list A) :
  map f l = map f l' ->
  (forall a a', f a = f a' -> g a = g a') ->
  flat_map g l = flat_map g l'.
Proof.
  intros E Hg. revert l' E.
  induction l as [|a t IH]; intros [|a' t'] E; try discriminate;
    [reflexivity|].
  injection E as Ea Et. simpl. now rewrite (Hg a a' Ea), (IH t' Et).
Qed.

(** The moves frame depends on the selected samples through their columns
    only, not through their geometry. *)
Lemma get_moves_bytag_fields (self self' : App) (df df' : list Sample.t)
  (move_df : list Move.t) :
  lpis_cent self = lpis_cent self' ->
  map Sample.field df = map Sample.field df' ->
  get_moves_bytag self df move_df = get_moves_bytag self' df' move_df.
Proof.
  intros El Ef. unfold get_moves_bytag. rewrite El.
  assert (Ecol : Sample.col "HERD_NO" df = Sample.col "HERD_NO" df').
  { unfold Sample.col.
    rewrite <- (map_map Sample.field (fun fl => fl "HERD_NO") df).
    rewrite <- (map_map Sample.field (fun fl => fl "HERD_NO") df').
    now rewrite Ef. }
  rewrite Ecol.
  rewrite (flat_map_same_view Sample.field _ df df' Ef); [reflexivity|].
  intros a a' E. now rewrite E.
Qed.

Section RedrawOutcome.
Context {P : Plotting}.

Lemma plot_moves_raises (self : App) (mv : list Trace.t) (ax0 : Axes) :
  length (random_colors 30 12) = 30 ->
  30 < length (animals_with_trace mv) ->
  snd (plot_moves self (Some mv) ax0) = Raise IndexError.
Proof.
  intros Hlen Hn. unfold plot_moves.
  change (filter _ mv) with (filter resolved mv).
  destruct (plot_moves_loop_outcome (lpis_cent self) (random_colors 30 12)
              _ (groups_resolved mv) 0 ax0) as [_ Hraise].
  rewrite groups_with_segment, Hlen in Hraise.
  apply Hraise; simpl; lia.
Qed.

(** X11: With the moves shown, a subset of which more than 30 animals have
    a segment to draw makes [update] fail: the IndexError of [plot_moves]
    is not caught, and the jitter does not change the moves that are
    looked up.  (A drawing step that fails earlier ends the redraw with
    its own exception.)  That [random_colors(30, seed=12)] returns 30
    colours is assumed. *)
Theorem update_fails_beyond_palette (noise : nat -> Z * Z) (w : Widgets)
  (self : App) (mv : list Trace.t) :
  length (random_colors 30 12) = 30 ->
  movesb w = true ->
  get_moves_bytag self (sub self) (moves self) = Some mv ->
  30 < length (animals_with_trace mv) ->
  exists e, snd (update noise w self) = Raise e.
Proof.
  intros Hlen Hmoves Emv Hn. unfold update.
  set (f := fun s : App =>
              (map Sample.field (sub s), moves s, lpis_cent s)).
  assert (Hjit : keeps f
    (if jitterb w
     then (self0 <- get ;;
           match sub self0 with
           | [] => raise ValueError
           | _ :: _ => modify (set_sub (jittered noise (sub self0)))
           end)%py
     else ret tt)).
  { destruct (jitterb w); [|apply keeps_ret].
    intros s. unfold bind, get. cbn [fst snd].
    destruct (sub s) as [|a l] eqn:Es; [reflexivity|].
    unfold f, modify, set_sub. cbn [fst sub moves lpis_cent].
    now rewrite jittered_fields, Es. }
  apply (fails_bind f); [keeps_tac|]. intros _ s0 E0.
  apply (fails_bind f); [keeps_tac|]. intros _ s1 E1.
  rewrite E0 in E1. clear s0 E0.
  apply (fails_bind f); [keeps_tac|]. intros _ s2 E2.
  rewrite E1 in E2. clear s1 E1.
  apply (fails_bind f); [exact Hjit|]. intros _ s3 E3.
  rewrite E2 in E3. clear s2 E2.
  erewrite bind_ok by reflexivity.
  apply (fails_bind f); [keeps_tac|]. intros _ s4 E4.
  rewrite E3 in E4. clear s3 E3.
  apply (fails_bind f); [keeps_tac|]. intros _ s5 E5.
  rewrite E4 in E5. clear s4 E4.
  apply (fails_bind f); [keeps_tac|]. intros _ s6 E6.
  rewrite E5 in E6. clear s5 E5.
  apply (fails_bind f); [keeps_tac|]. intros _ s7 E7.
  rewrite E6 in E7. clear s6 E6.
  apply fails_now. rewrite Hmoves.
  erewrite bind_ok by reflexivity.
  rewrite snd_on_ax.
  unfold f in E7. injection E7 as Ef Em El.
  rewrite Em, (get_moves_bytag_fields s7 self (sub s7) (sub self))
    by assumption.
  rewrite Emv. exists IndexError. now apply plot_moves_raises.
Qed.

End RedrawOutcome.

(** ** The jitter *)

Lemma nth_error_combine_seq {A} (l : list A) (k0 k : nat) (a : A) :
  nth_error l k = Some a ->
  nth_error (combine (seq k0 (length l)) l) k = Some (k0 + k, a).
Proof.
  revert k0 k. induction l as [|b l IH]; intros k0 [|k] H; simpl in *;
    try discriminate.
  - injection H as ->. now rewrite Nat.add_0_r.
  - rewrite (IH (S k0) k H). f_equal. f_equal. lia.
Qed.

(** X12: The jitter keeps the number of rows and every column but the geometry,
    moves the point of row k by the k-th pair of draws, leaves a sample
    without location without one, and changes nothing when every draw is
    zero. *)
Theorem jittered_rows (noise : nat -> Z * Z) (l : list Sample.t) :
  length (jittered noise l) = length l /\
  (forall k s,
     nth_error l k = Some s ->
     nth_error (jittered noise l) k =
     Some (Sample.mk (Sample.field s)
             (match Sample.geometry s with
              | None => None
              | Some (x, y) => Some (x + fst (noise k), y + snd (noise k))%Z
              end))) /\
  ((forall k, noise k = (0, 0)%Z) -> jittered noise l = l).
Proof.
  unfold jittered. split; [|split].
  - rewrite length_map, length_combine, length_seq. apply Nat.min_id.
  - intros k s H. rewrite nth_error_map.
    rewrite (nth_error_combine_seq l 0 k s H). reflexivity.
  - intros H0. generalize 0.
    induction l as [|s l IH]; intros k0; [reflexivity|].
    cbn [length seq combine map fst snd]. rewrite IH. f_equal.
    unfold jitter_points. rewrite H0. destruct s as [f [[x y]|]]; simpl;
      [now rewrite !Z.add_0_r | reflexivity].
Qed.

(** ** The points kept for binning *)

Lemma value_counts_length (l : list string) :
  length (pd.value_counts l) = length (pd.unique l).
Proof. unfold pd.value_counts. now rewrite sort_by_length, length_map. Qed.

(** X13: [plot_hexbin] bins points of at most ten categories, never the
    category -1, and only points of the frame it is given; when the frame
    has at most ten categories besides -1, it bins every point that is not
    of category -1. *)
Theorem retained_categories (gdf : list Sample.t) (col : string) :
  length (pd.unique (Sample.col col (Genie.retained gdf col))) <= 10 /\
  ~ In "-1" (Sample.col col (Genie.retained gdf col)) /\
  (forall s, In s (Genie.retained gdf col) -> In s gdf) /\
  (length (pd.unique
             (Sample.col col
                (filter (fun s => negb (Sample.field s col =? "-1")%string)
                        gdf))) <= 10 ->
   Genie.retained gdf col =
   filter (fun s => negb (Sample.field s col =? "-1")%string) gdf).
Proof.
  split; [|split; [|split]].
  - transitivity
      (length (firstn 10
                 (map fst
                    (pd.value_counts
                       (Sample.col col
                          (filter (fun s => negb (Sample.field s col =? "-1")%string)
                                  gdf)))))).
    + apply NoDup_incl_length; [apply unique_NoDup|].
      intros x Hx. apply unique_In, in_map_iff in Hx.
      destruct Hx as (s & <- & Hs). apply retained_In in Hs. tauto.
    + rewrite length_firstn. lia.
  - intros H. apply in_map_iff in H. destruct H as (s & E & Hs).
    apply retained_In in Hs. tauto.
  - intros s Hs. apply retained_In in Hs. tauto.
  - intros Hle. unfold Genie.retained.
    set (kept := filter (fun s => negb (Sample.field s col =? "-1")%string) gdf)
      in *.
    rewrite firstn_all2
      by (now rewrite length_map, value_counts_length).
    rewrite (filter_ext_in _ (fun _ => true)).
    + clear. induction kept as [|a t IH]; simpl; [reflexivity | now rewrite IH].
    + intros s Hs. apply isin_In, in_map_iff.
      exists (Sample.field s col, pd.count (Sample.field s col)
                                           (Sample.col col kept)).
      split; [reflexivity|]. apply value_counts_In.
      split; [|reflexivity]. apply in_map_iff. now exists s.
Qed.

(** ** Recent project files *)

Lemma removelast_NoDup {A} (l : list A) : NoDup l -> NoDup (removelast l).
Proof.
  intros H. destruct l as [|a t]; [exact H|].
  rewrite (app_removelast_last a (l := a :: t)) in H by discriminate.
  now apply NoDup_app_remove_r in H.
Qed.

Lemma removelast_incl {A} (l : list A) (x : A) :
  In x (removelast l) -> In x l.
Proof.
  intros H. destruct l as [|a t]; [exact H|].
  rewrite (app_removelast_last a (l := a :: t)) by discriminate.
  apply in_or_app. now left.
Qed.

Lemma listed_spec (f : string) (l : list string) :
  existsb (fun g => (g =? f)%string) l = true <-> In f l.
Proof. apply isin_In. Qed.

(** X15: [add_recent_file] keeps the list of recent files within five entries
    and free of repetitions, and lists nothing but the entries it had and
    the file added. *)
Theorem add_recent_file_bounded (abspath : string -> string)
  (recent_files : list string) (fname : string) :
  length recent_files <= 5 ->
  NoDup recent_files ->
  length (add_recent_file abspath recent_files fname) <= 5 /\
  NoDup (add_recent_file abspath recent_files fname) /\
  (forall f, In f (add_recent_file abspath recent_files fname) ->
             f = abspath fname \/ In f recent_files).
Proof.
  intros Hlen Hnd. unfold add_recent_file.
  destruct (abspath fname =? "")%string; simpl; [auto|].
  destruct (existsb _ recent_files) eqn:E; simpl; [auto|].
  assert (Hnew : ~ In (abspath fname) recent_files).
  { intros H. apply listed_spec in H. congruence. }
  assert (Hnd' : NoDup (abspath fname :: recent_files))
    by (now constructor).
  destruct (Nat.ltb_spec 5 (S (length recent_files))) as [H|H].
  - assert (length recent_files = 5) by lia.
    split; [|split].
    + change (length (removelast (abspath fname :: recent_files)) <= 5).
      rewrite removelast_firstn_len, length_firstn. simpl. lia.
    + now apply (removelast_NoDup (abspath fname :: recent_files)).
    + intros f Hf.
      apply (removelast_incl (abspath fname :: recent_files)) in Hf.
      destruct Hf as [<-|Hf]; auto.
  - split; [simpl; lia|]. split; [assumption|].
    intros f [<-|Hf]; auto.
Qed.

(** X16: [os.path.abspath] gives a path that is not empty; then after
    [add_recent_file] the path is listed.  If it was not listed before it
    is put at the front, followed by the entries that were listed, in
    their order and with at most the end of the list dropped: for a list
    of at most five entries the result is the first five entries of the
    path followed by the list.  If it was listed the list is unchanged,
    so adding the same file again changes nothing. *)
Theorem add_recent_file_front (abspath : string -> string)
  (recent_files : list string) (fname : string) :
  abspath fname <> "" ->
  In (abspath fname) (add_recent_file abspath recent_files fname) /\
  (~ In (abspath fname) recent_files ->
   (exists n,
      add_recent_file abspath recent_files fname =
      abspath fname :: firstn n recent_files) /\
   (length recent_files <= 5 ->
    add_recent_file abspath recent_files fname =
    firstn 5 (abspath fname :: recent_files))) /\
  (In (abspath fname) recent_files ->
   add_recent_file abspath recent_files fname = recent_files) /\
  add_recent_file abspath
    (add_recent_file abspath recent_files fname) fname =
  add_recent_file abspath recent_files fname.
Proof.
  intros Hne.
  assert (Hold : forall l, In (abspath fname) l ->
                           add_recent_file abspath l fname = l).
  { intros l Hl. unfold add_recent_file.
    rewrite (proj2 (listed_spec _ _) Hl). now rewrite andb_false_r. }
  assert (Hnew : ~ In (abspath fname) recent_files ->
    add_recent_file abspath recent_files fname =
    if 5 <? length (abspath fname :: recent_files)
    then removelast (abspath fname :: recent_files)
    else abspath fname :: recent_files).
  { intros Hnew. unfold add_recent_file.
    apply String.eqb_neq in Hne. rewrite Hne.
    destruct (existsb _ recent_files) eqn:E;
      [apply listed_spec in E; contradiction | reflexivity]. }
  assert (Hin : In (abspath fname)
                   (add_recent_file abspath recent_files fname)).
  { destruct (in_dec String.string_dec (abspath fname) recent_files)
      as [Hl|Hl]; [now rewrite Hold|].
    rewrite (Hnew Hl).
    destruct (Nat.ltb_spec 5 (length (abspath fname :: recent_files)))
      as [H5|H5]; [|now left].
    destruct recent_files as [|a t]; [simpl in H5; lia|]. now left. }
  split; [exact Hin|]. split; [|split].
  - intros Hl. rewrite (Hnew Hl).
    destruct (Nat.ltb_spec 5 (length (abspath fname :: recent_files)))
      as [H5|H5]; cbn [length] in H5.
    + rewrite removelast_firstn_len. cbn [length].
      destruct recent_files as [|a t]; [simpl in H5; lia|].
      split; [exists (length t); reflexivity|].
      intros L. cbn [length] in L, H5.
      cbn [length Nat.pred]. now replace (length t) with 4 by lia.
    + split; [exists (length recent_files); now rewrite firstn_all|].
      intros _. symmetry. apply firstn_all2. cbn [length]. lia.
  - apply Hold.
  - now apply Hold.
Qed.

(** ** The clade list of btbgenietool *)

(** X17: [update_clades] of btbgenietool lists every label of the level once,
    the label -1 included, in increasing order. *)
Theorem Genie_update_clades_sorted (level : string) (self : Genie.App) :
  (forall lab,
     In lab (Genie.update_clades level self) <->
     In lab (Sample.col level (Genie.cent self))) /\
  NoDup (Genie.update_clades level self) /\
  StronglySorted (fun a b => String.leb a b = true /\ a <> b)
                 (Genie.update_clades level self).
Proof.
  unfold Genie.update_clades.
  assert (Hnd : NoDup (pd.sort_by String.leb
                         (pd.unique (Sample.col level (Genie.cent self))))).
  { eapply Permutation_NoDup;
      [apply Permutation_sym, sort_by_perm | apply unique_NoDup]. }
  split; [|split].
  - intros lab. now rewrite sort_by_In, unique_In.
  - exact Hnd.
  - pose proof (sort_by_sorted String.leb String.leb_total string_leb_trans
                  (pd.unique (Sample.col level (Genie.cent self)))) as Hs.
    revert Hnd Hs. generalize (pd.sort_by String.leb
      (pd.unique (Sample.col level (Genie.cent self)))).
    induction l as [|a t IH]; intros Hnd Hs; [constructor|].
    inversion Hnd; subst. inversion Hs; subst.
    constructor; [now apply IH|].
    apply Forall_forall. intros b Hb. split.
    + rewrite Forall_forall in H4. now apply H4.
    + intros ->. contradiction.
Qed.

(** ** The cells drawn *)

Lemma lookup_cell_NoDup {A} (j : nat) (d : list (nat * A)) (a : A) :
  NoDup (map fst d) -> In (j, a) d -> Genie.lookup_cell j d = Some a.
Proof.
  induction d as [|[j' a'] d IH]; simpl; [easy|].
  intros Hnd Hin. inversion Hnd as [|? ? Hnotin Hnd']; subst.
  destruct (Nat.eqb_spec j' j) as [->|Hne].
  - destruct Hin as [E|Hin]; [now injection E as ->|].
    exfalso. apply Hnotin. apply in_map_iff. now exists (j, a).
  - destruct Hin as [E|Hin]; [injection E as -> _; contradiction|].
    now apply IH.
Qed.

Lemma cells_in_order {E} (idx : E -> nat) (f : nat -> list E) (n k : nat) :
  (forall j e, In e (f j) -> idx e = j) ->
  (forall j, length (f j) <= 1) ->
  StronglySorted lt (map idx (flat_map f (seq k n))) /\
  Forall (fun i => k <= i) (map idx (flat_map f (seq k n))).
Proof.
  intros Hidx Hone. revert k. induction n as [|n IH]; intros k.
  - simpl. split; constructor.
  - destruct (IH (S k)) as [IHs IHf]. cbn [seq flat_map].
    rewrite map_app.
    specialize (Hone k). pose proof (Hidx k) as Hk.
    destruct (f k) as [|e [|e' t]]; simpl in Hone; [| |lia].
    + simpl. split; [assumption|].
      eapply Forall_impl; [|exact IHf]. intros; cbv beta in *; lia.
    + simpl. rewrite (Hk e (or_introl eq_refl)). split.
      * constructor; [assumption|].
        eapply Forall_impl; [|exact IHf]. intros; cbv beta in *; lia.
      * constructor; [lia|].
        eapply Forall_impl; [|exact IHf]. intros; cbv beta in *; lia.
Qed.

Section CellsDrawn.
Context {P : Plotting}.

(** X14: [plot_hexbin] draws every cell that has an entry in the mapping and
    whose category has a colour, with that colour, each cell once and the
    cells in grid order. *)
Theorem colored_cells_complete (gdf : list Sample.t) (grid : list Cell)
  (col : string) (snpmap : list (string * Color)) :
  (forall j value color,
     In (j, Some value) (assign_dominant gdf grid col) ->
     Genie.lookup value snpmap = Some color ->
     In (j, value, color)
        (Genie.colored_cells grid (assign_dominant gdf grid col) snpmap)) /\
  StronglySorted lt
    (map (fun c => fst (fst c))
         (Genie.colored_cells grid (assign_dominant gdf grid col) snpmap)).
Proof.
  split.
  - intros j value color Hin Hcol.
    assert (Hnd : NoDup (map fst (assign_dominant gdf grid col))).
    { unfold assign_dominant, Genie.dissolve. rewrite map_map. simpl.
      apply groupby_NoDup, Nat.eqb_spec. }
    assert (Hj : j < length grid).
    { assert (Hk : In j (map fst (assign_dominant gdf grid col)))
        by (apply in_map_iff; now exists (j, Some value)).
      unfold assign_dominant, Genie.dissolve in Hk.
      rewrite map_map in Hk. simpl in Hk.
      apply (groupby_key_In _ _ Nat.eqb_spec) in Hk.
      apply sjoin_key_In in Hk. destruct Hk as (s & _ & Hc).
      unfold in_cell in Hc. apply nth_error_Some.
      destruct (Sample.geometry s); [|discriminate].
      destruct (nth_error grid j); [discriminate | discriminate]. }
    unfold Genie.colored_cells. apply in_flat_map. exists j. split.
    + apply in_seq. lia.
    + rewrite (lookup_cell_NoDup _ _ _ Hnd Hin), Hcol. now left.
  - unfold Genie.colored_cells.
    apply (cells_in_order (fun c : nat * string * Color => fst (fst c))).
    + intros j e He.
      destruct (Genie.lookup_cell j _) as [[v|]|]; try contradiction.
      destruct (Genie.lookup v snpmap); [|contradiction].
      destruct He as [<-|[]]. reflexivity.
    + intros j.
      destruct (Genie.lookup_cell j _) as [[v|]|]; simpl; try lia.
      destruct (Genie.lookup v snpmap); simpl; lia.
Qed.

(** X18: With at least one clade picked, [plot_selected] of btbgenietool makes
    the samples whose label is among the picked clades the active subset,
    and [plot_in_region] the samples whose point lies in the closed
    rectangle of the view; both leave the sample table as it is, whether
    or not drawing then fails. *)
Theorem Genie_selection (w : Widgets) (self : Genie.App) :
  (cladew_selected w <> [] ->
   Genie.sub (fst (Genie.plot_selected w self)) =
   filter (fun s => pd.isin (Sample.field s (cladelevelw w))
                            (cladew_selected w)) (Genie.cent self) /\
   Genie.cent (fst (Genie.plot_selected w self)) = Genie.cent self) /\
  (forall xmin xmax ymin ymax,
     plot_lims w = (xmin, xmax, ymin, ymax) ->
     Genie.sub (fst (Genie.plot_in_region w self)) =
     cx xmin xmax ymin ymax (Genie.cent self) /\
     Genie.cent (fst (Genie.plot_in_region w self)) = Genie.cent self).
Proof.
  assert (Hsub : forall t k, keeps Genie.sub (Genie.replot w t k))
    by (intros; unfold Genie.replot; keeps_tac).
  assert (Hcent : forall t k, keeps Genie.cent (Genie.replot w t k))
    by (intros; unfold Genie.replot; keeps_tac).
  split.
  - intros Hne. unfold Genie.plot_selected.
    erewrite bind_ok by reflexivity.
    assert (Hlen : (length (cladew_selected w) =? 0) = false)
      by (destruct (cladew_selected w); [contradiction | reflexivity]).
    rewrite Hlen.
    erewrite bind_ok by reflexivity.
    rewrite Hsub, Hcent. split; reflexivity.
  - intros xmin xmax ymin ymax Hl. unfold Genie.plot_in_region. rewrite Hl.
    erewrite bind_ok by reflexivity.
    erewrite bind_ok by reflexivity.
    rewrite (bind_fst_keeps Genie.sub) by (intros; keeps_tac).
    rewrite (bind_fst_keeps Genie.cent) by (intros; keeps_tac).
    rewrite Hsub, Hcent. split; reflexivity.
Qed.

End CellsDrawn.

(** ** The properties at examples *)

(** Clade A picked among samples of clades A and B. *)
Lemma plot_selected_clade_selects_witness :
  sub (fst (plot_selected_clade (P := example_plotting) (fun _ => (0, 0)%Z)
              (widgets_of "snp3" ["A"] (0, 0, 0, 0)%Z)
              (app_of [labelled "A"; labelled "B"; labelled "A"]))) =
  [labelled "A"; labelled "A"].
Proof.
  refine (proj1 (plot_selected_clade_selects (P := example_plotting)
                   (fun _ => (0, 0)%Z)
                   (widgets_of "snp3" ["A"] (0, 0, 0, 0)%Z)
                   (app_of [labelled "A"; labelled "B"; labelled "A"]) _)).
  simpl. discriminate.
Defined.

(** A sample outside the view is not selected. *)
Lemma plot_in_region_exact_witness :
  In (clade_at "A" (11, 1)%Z)
     (sub (fst (plot_in_region (P := example_plotting) (fun _ => (0, 0)%Z)
                  (widgets_of "snp3" [] (0, 10, 0, 10)%Z)
                  (app_of [clade_at "A" (11, 1)%Z; clade_at "B" (1, 1)%Z]))))
  <->
  In (clade_at "A" (11, 1)%Z)
     (cent (app_of [clade_at "A" (11, 1)%Z; clade_at "B" (1, 1)%Z])) /\
  exists x y,
    Sample.geometry (clade_at "A" (11, 1)%Z) = Some (x, y) /\
    (0 <= x <= 10)%Z /\ (0 <= y <= 10)%Z.
Proof.
  refine (plot_in_region_exact (P := example_plotting) (fun _ => (0, 0)%Z)
            (widgets_of "snp3" [] (0, 10, 0, 10)%Z)
            (app_of [clade_at "A" (11, 1)%Z; clade_at "B" (1, 1)%Z])
            0 10 0 10 eq_refl eq_refl _ _ (clade_at "A" (11, 1)%Z)); lia.
Defined.

(** Selecting clade A twice. *)
Lemma selection_twice_witness :
  sub (fst (plot_selected_clade (P := example_plotting) (fun _ => (1, 1)%Z)
              (widgets_of "snp3" ["A"] (0, 0, 0, 0)%Z)
              (fst (plot_selected_clade (P := example_plotting)
                      (fun _ => (0, 0)%Z)
                      (widgets_of "snp3" ["A"] (0, 0, 0, 0)%Z)
                      (app_of [labelled "A"; labelled "B"]))))) =
  sub (fst (plot_selected_clade (P := example_plotting) (fun _ => (0, 0)%Z)
              (widgets_of "snp3" ["A"] (0, 0, 0, 0)%Z)
              (app_of [labelled "A"; labelled "B"]))).
Proof.
  exact (proj1 (selection_twice (P := example_plotting) (fun _ => (0, 0)%Z)
                  (fun _ => (1, 1)%Z)
                  (widgets_of "snp3" ["A"] (0, 0, 0, 0)%Z)
                  (app_of [labelled "A"; labelled "B"]) eq_refl)).
Defined.

(** The two moves of animal T1: one row each, the current herd H3 none. *)
Lemma get_moves_bytag_rows_witness :
  Permutation
    [move_row animal_T1 (Move.mk "T1" "H1" 1 "" "" "") (Some "H1")
              (Some (0, 0)%Z);
     move_row animal_T1 (Move.mk "T1" "H2" 3 "" "" "") None None]
    (move_rows scenario_H1_H2_H3 (sub scenario_H1_H2_H3)
               (moves scenario_H1_H2_H3)).
Proof.
  exact (proj1 (proj2 (get_moves_bytag_rows scenario_H1_H2_H3
                         (sub scenario_H1_H2_H3) (moves scenario_H1_H2_H3)
                         _ eq_refl))).
Defined.

Lemma get_moves_bytag_sorted_witness :
  StronglySorted animal_date_le
    [move_row animal_T1 (Move.mk "T1" "H1" 1 "" "" "") (Some "H1")
              (Some (0, 0)%Z);
     move_row animal_T1 (Move.mk "T1" "H2" 3 "" "" "") None None].
Proof.
  exact (get_moves_bytag_sorted scenario_H1_H2_H3 (sub scenario_H1_H2_H3)
           (moves scenario_H1_H2_H3) _ eq_refl).
Defined.

(** Animal a is drawn before animal b, which comes first in the frame. *)
Lemma plot_moves_colors_witness :
  exists order,
    Permutation order (animals_with_trace animals_b_then_a) /\
    StronglySorted (fun a b => String.leb a b = true /\ a <> b) order /\
    fst (plot_moves (P := example_plotting) (app_of [])
           (Some animals_b_then_a) []) =
    flat_map (fun ac => move_layers [] (trace_of (fst ac) animals_b_then_a)
                                    (snd ac))
             (combine order (random_colors (Plotting := example_plotting)
                               30 12)).
Proof.
  refine (plot_moves_colors (P := example_plotting) (app_of [])
            animals_b_then_a eq_refl _).
  vm_compute. lia.
Defined.

(** Thirty-one moved animals redrawn with the moves shown. *)
Lemma update_fails_beyond_palette_witness :
  exists e,
    snd (update (P := example_plotting) (fun _ => (0, 0)%Z)
           (mkWidgets "snp3" [] "" "" "" "" false true false (0, 0, 0, 0)%Z)
           thirty_one_moved) = Raise e.
Proof.
  refine (update_fails_beyond_palette (P := example_plotting)
            (fun _ => (0, 0)%Z)
            (mkWidgets "snp3" [] "" "" "" "" false true false (0, 0, 0, 0)%Z)
            thirty_one_moved
            (match get_moves_bytag thirty_one_moved (sub thirty_one_moved)
                     (moves thirty_one_moved) with
             | Some m => m
             | None => []
             end) eq_refl eq_refl _ _).
  - vm_compute. reflexivity.
  - vm_compute. lia.
Defined.

(** A sixth file pushes the oldest one out. *)
Lemma add_recent_file_bounded_witness :
  length (add_recent_file (fun f => f) ["a"; "b"; "c"; "d"; "e"] "f") <= 5 /\
  NoDup (add_recent_file (fun f => f) ["a"; "b"; "c"; "d"; "e"] "f") /\
  (forall f,
     In f (add_recent_file (fun f => f) ["a"; "b"; "c"; "d"; "e"] "f") ->
     f = "f" \/ In f ["a"; "b"; "c"; "d"; "e"]).
Proof.
  refine (add_recent_file_bounded (fun f => f) ["a"; "b"; "c"; "d"; "e"] "f"
            _ _).
  - simpl. lia.
  - repeat constructor; simpl; intuition discriminate.
Defined.

(** A sixth file pushes the oldest entry off the list. *)
Lemma add_recent_file_front_witness :
  add_recent_file (fun f => f) ["a"; "b"; "c"; "d"; "e"] "f" =
  ["f"; "a"; "b"; "c"; "d"].
Proof.
  refine (proj2 (proj1 (proj2 (add_recent_file_front (fun f => f)
                   ["a"; "b"; "c"; "d"; "e"] "f" _)) _) _).
  - discriminate.
  - simpl. intuition discriminate.
  - simpl. lia.
Defined.
